(** * HUDP: a hybrid reliable / best-effort transport over datagrams

    A shallow embedding of [client.py] (class [HUDPClient]) and [server.py]
    (class [HUDPServer]), and the properties of the protocol engine proved
    about it.

    Conventions of the embedding.
    - Python [int] is [Z]; Python [float] is the kernel's IEEE 754 binary64
      type [float], so [time.time()] readings, their differences and the
      comparisons against the thresholds are the ones CPython computes.
    - [bytes] is [list byte]; [struct.pack]/[struct.unpack] for the
      little-endian formats ['<BQQ'] and ['<BQ'] are written with
      [le_split]/[le_combine].
    - A Python [str] is the list of its code points; [str.encode('utf-8')]
      and [bytes.decode('utf-8')] are written out.
    - An exception raised by a function is the result [None] of its
      embedding; what a caller catches is written at the caller.
    - The socket is a UDP socket over IPv4: [sendto] raises for a datagram
      of more than 65507 bytes, and [recvfrom(1024)] returns the first
      1024 bytes of a datagram.  The methods [_packet_receiver] and
      [_ack_listener] take what [recvfrom] returned; where a theorem
      follows a datagram from one endpoint to the other, the bytes read
      are [recvfrom 1024] of the bytes sent.
    - Every reading of the clock is an argument of the operation that reads
      it.  Each method body (or loop iteration of a thread) is one atomic
      step: the interleaving of the threads inside a method is not
      modelled.
    - [print] calls are left out. *)

From Corelib Require Import PrimFloat FloatOps SpecFloat.
From coqutil Require Import Byte Word.LittleEndianList.
From stdpp Require Import gmap list strings.

Set Warnings "-inexact-float".
Local Open Scope Z_scope.

(** ** Python values shared by both endpoints *)

Module Py.

Abbreviation bytes := (list byte).

#[global] Instance byte_eq_dec : EqDecision byte := Byte.byte_eq_dec.

(** A [str], as the list of its code points. *)
Abbreviation str := (list Z).

(** [(host, port)] *)
Abbreviation address := (string * Z)%type.

(** What a thread hands to the socket: [socket.sendto(data, addr)]. *)
Inductive effect :=
| SendTo (data : bytes) (addr : address).

(** *** struct *)

(** [struct.pack('<BQQ', a, b, c)]; [struct.error] when a field is out
    of the range of its format character. *)
Definition pack_BQQ (a b c : Z) : option bytes :=
  if decide (0 <= a < 2 ^ 8 /\ 0 <= b < 2 ^ 64 /\ 0 <= c < 2 ^ 64)
  then Some (le_split 1 a ++ le_split 8 b ++ le_split 8 c)
  else None.

(** [struct.pack('<BQ', a, b)] *)
Definition pack_BQ (a b : Z) : option bytes :=
  if decide (0 <= a < 2 ^ 8 /\ 0 <= b < 2 ^ 64)
  then Some (le_split 1 a ++ le_split 8 b)
  else None.

(** [struct.unpack('<BQQ', data)]; [struct.error] unless [data] has
    exactly [calcsize('<BQQ') = 17] bytes. *)
Definition unpack_BQQ (data : bytes) : option (Z * Z * Z) :=
  if decide (length data = 17%nat)
  then Some (le_combine (take 1 data),
             le_combine (take 8 (drop 1 data)),
             le_combine (take 8 (drop 9 data)))
  else None.

(** [struct.unpack('<BQ', data)], [calcsize('<BQ') = 9]. *)
Definition unpack_BQ (data : bytes) : option (Z * Z) :=
  if decide (length data = 9%nat)
  then Some (le_combine (take 1 data), le_combine (take 8 (drop 1 data)))
  else None.

(** *** UTF-8 *)

Definition cont (z : Z) : byte := byte.of_Z (128 + z mod 64).

(** The encoding of one code point; [None] is [UnicodeEncodeError]
    (a surrogate), or a number that is no code point at all. *)
Definition encode_cp (c : Z) : option bytes :=
  if decide (c < 0) then None
  else if decide (c < 128) then Some [byte.of_Z c]
  else if decide (c < 2048) then Some [byte.of_Z (192 + c / 64); cont c]
  else if decide (c < 65536) then
    if decide (55296 <= c < 57344) then None
    else Some [byte.of_Z (224 + c / 4096); cont (c / 64); cont c]
  else if decide (c < 1114112) then
    Some [byte.of_Z (240 + c / 262144); cont (c / 4096); cont (c / 64); cont c]
  else None.

(** [s.encode('utf-8')] *)
Fixpoint utf8_encode (s : str) : option bytes :=
  match s with
  | [] => Some []
  | c :: s' =>
      b ← encode_cp c; bs ← utf8_encode s'; Some (b ++ bs)
  end.

Definition between (lo hi : Z) (b : byte) : bool :=
  bool_decide (lo <= byte.unsigned b <= hi).

Definition low6 (b : byte) : Z := byte.unsigned b mod 64.

(** [data.decode('utf-8')], strict: [None] is [UnicodeDecodeError].
    The accepted byte sequences are the well-formed ones of the Unicode
    standard (no overlong form, no surrogate, nothing above U+10FFFF). *)
Fixpoint utf8_decode (data : bytes) : option str :=
  match data with
  | [] => Some []
  | b0 :: r0 =>
      if between 0 127 b0 then
        s ← utf8_decode r0; Some (byte.unsigned b0 :: s)
      else
        match r0 with
        | [] => None
        | b1 :: r1 =>
            if between 194 223 b0 then
              if between 128 191 b1 then
                s ← utf8_decode r1;
                Some ((byte.unsigned b0 mod 32) * 64 + low6 b1 :: s)
              else None
            else
              match r1 with
              | [] => None
              | b2 :: r2 =>
                  if between 224 239 b0 then
                    if between (if between 224 224 b0 then 160 else 128)
                               (if between 237 237 b0 then 159 else 191) b1
                       && between 128 191 b2
                    then
                      s ← utf8_decode r2;
                      Some ((byte.unsigned b0 mod 16) * 4096
                            + low6 b1 * 64 + low6 b2 :: s)
                    else None
                  else
                    match r2 with
                    | [] => None
                    | b3 :: r3 =>
                        if between 240 244 b0 then
                          if between (if between 240 240 b0 then 144 else 128)
                                     (if between 244 244 b0 then 143 else 191) b1
                             && between 128 191 b2 && between 128 191 b3
                          then
                            s ← utf8_decode r3;
                            Some ((byte.unsigned b0 mod 8) * 262144
                                  + low6 b1 * 4096 + low6 b2 * 64
                                  + low6 b3 :: s)
                          else None
                        else None
                    end
              end
        end
  end.

(** *** float and int *)

(** [int(x)] for a float [x]: truncation towards zero; [None] is
    [ValueError] (a NaN) or [OverflowError] (an infinity). *)
Definition int_of_float (x : float) : option Z :=
  match Prim2SF x with
  | S754_zero _ => Some 0
  | S754_finite sign m e =>
      let mag := Z.shiftl (Z.pos m) e in
      Some (if sign then - mag else mag)
  | S754_infinity _ => None
  | S754_nan => None
  end.

(** The float an [int] becomes as the operand of a float operation
    (round to nearest, ties to even); [None] is [OverflowError], raised
    when the int rounds beyond the largest finite float.  An int below
    [2 ^ 1023] in magnitude is within the finite floats, so only a larger
    one is tested. *)
Definition float_of_int (z : Z) : option float :=
  let x := SF2Prim (binary_normalize prec emax z 0 false) in
  if decide (Z.abs z < 2 ^ 1023) then Some x
  else if is_infinity x then None else Some x.

(** *** socket *)

(** The largest datagram a UDP socket over IPv4 takes, 65535 - 20 - 8
    bytes: [socket.sendto] raises [OSError] (message too long) for a
    longer one. *)
Definition MAX_DATAGRAM : Z := 65507.

(** [socket.recvfrom(bufsize)] on a UDP socket, for a datagram that has
    come in: its first [bufsize] bytes; the rest of the datagram is
    discarded. *)
Definition recvfrom (bufsize : nat) (datagram : bytes) : bytes :=
  take bufsize datagram.

End Py.


Import Py.

(** ** client.py: class HUDPClient *)

Module Client.

Definition HEADER_SIZE : nat := 17.
Definition ACK_SIZE : nat := 9.
Definition TIMEOUT : float := 0.1.
Definition MAX_THRESHOLD : float := 0.2.

(** A value of [pending_packets]:
    [{'packet': ..., 'send_time': ..., 'retries': ...}]. *)
Record tracked := Tracked {
  packet : bytes;
  send_time : float;
  retries : Z
}.

(** A [dict] with [int] keys, in insertion order: what the iteration of
    [_retransmit_checker] walks through. *)
Abbreviation dict V := (list (Z * V)).

Section Dict.
Context {V : Type}.

(** [d.get(k)]; [k in d] is [is_Some (dict_get k d)]. *)
Fixpoint dict_get (k : Z) (d : dict V) : option V :=
  match d with
  | [] => None
  | (k', v) :: d' => if decide (k = k') then Some v else dict_get k d'
  end.

(** [d[k] = v]: in place when the key is there, at the end when not. *)
Fixpoint dict_set (k : Z) (v : V) (d : dict V) : dict V :=
  match d with
  | [] => [(k, v)]
  | (k', v') :: d' =>
      if decide (k = k') then (k, v) :: d' else (k', v') :: dict_set k v d'
  end.

(** [del d[k]], at a place where [k] is known to be a key. *)
Fixpoint dict_del (k : Z) (d : dict V) : dict V :=
  match d with
  | [] => []
  | (k', v') :: d' =>
      if decide (k = k') then d' else (k', v') :: dict_del k d'
  end.

(** The keys of a [dict] are distinct. *)
Definition dict_wf (d : dict V) : Prop := NoDup (d.*1).
End Dict.

(** [self.metrics] *)
Record client_metrics := Metrics {
  packets_sent_reliable : Z;
  packets_sent_unreliable : Z;
  packets_acked : Z;
  retransmissions : Z;
  latencies : list float;
  bytes_sent : Z
}.

(** The fields of a [HUDPClient] the protocol reads and writes. *)
Record client := Client {
  addr : address;
  seqno : Z;
  pending_packets : dict tracked;
  metrics : client_metrics
}.

(** [__init__(host, port)] *)
Definition init (host : string) (port : Z) : client :=
  {| addr := (host, port);
     seqno := 0;
     pending_packets := [];
     metrics := {| packets_sent_reliable := 0; packets_sent_unreliable := 0;
                  packets_acked := 0; retransmissions := 0;
                  latencies := []; bytes_sent := 0 |} |}.

(** [send_message(payload, isReliable)].  [t_stamp] is the clock read for
    the header, [t_send] the one read for the tracked entry.  The result
    is the new state, what went to the socket, and the value the call
    returns: the body has no [return], so that is Python's [None], here
    the [None] of [option Z].  The outer [None] is an exception, raised
    before the first assignment: by [int] (the clock reading is no finite
    number), by [struct.pack] (a field out of range), by [encode] (a
    surrogate), or by [sendto] (the datagram is longer than
    [MAX_DATAGRAM]). *)
Definition send_message (payload : str) (isReliable : bool)
    (t_stamp t_send : float) (c : client)
    : option (client * list effect * option Z) :=
  timestamp_ms ← int_of_float (t_stamp * 1000)%float;
  let channel_type := if isReliable then 0 else 1 in
  header_bytes ← pack_BQQ channel_type (seqno c) timestamp_ms;
  payload_bytes ← utf8_encode payload;
  let packet := header_bytes ++ payload_bytes in
  if decide (MAX_DATAGRAM < Z.of_nat (length packet)) then None else
  let out := [SendTo packet (addr c)] in
  let pending :=
    if isReliable
    then dict_set (seqno c)
           {| packet := packet; send_time := t_send; retries := 0 |}
           (pending_packets c)
    else pending_packets c in
  let m := metrics c in
  let m' :=
    {| packets_sent_reliable :=
         if isReliable then packets_sent_reliable m + 1
         else packets_sent_reliable m;
       packets_sent_unreliable :=
         if isReliable then packets_sent_unreliable m
         else packets_sent_unreliable m + 1;
       packets_acked := packets_acked m;
       retransmissions := retransmissions m;
       latencies := latencies m;
       bytes_sent := bytes_sent m + Z.of_nat (length packet) |} in
  Some ({| addr := addr c; seqno := seqno c + 1;
           pending_packets := pending; metrics := m' |},
        out, None).

(** One iteration of the loop of [_ack_listener], for the bytes [data]
    that [recvfrom(1024)] returned; [now] is the clock read for the
    round-trip time.  ([socket.timeout] is an iteration that changes
    nothing.) *)
Definition _ack_listener (data : bytes) (now : float) (c : client) : client :=
  if decide (ACK_SIZE <= length data)%nat then
    match unpack_BQ (take ACK_SIZE data) with
    | None => c
    | Some (channel_type, ack_seqno) =>
        if decide (channel_type = 255) then
          match dict_get ack_seqno (pending_packets c) with
          | Some info =>
              let rtt := (now - send_time info)%float in
              let m := metrics c in
              {| addr := addr c; seqno := seqno c;
                 pending_packets := dict_del ack_seqno (pending_packets c);
                 metrics :=
                   {| packets_sent_reliable := packets_sent_reliable m;
                      packets_sent_unreliable := packets_sent_unreliable m;
                      packets_acked := packets_acked m + 1;
                      retransmissions := retransmissions m;
                      latencies := latencies m ++ [rtt];
                      bytes_sent := bytes_sent m |} |}
          | None => c
          end
        else c
    end
  else c.

(** The body of the [for] loop of [_retransmit_checker], for one item of
    the snapshot [list(self.pending_packets.items())].  [info] is the
    very object stored in the dict, so assigning to its fields updates
    the entry of [seqno].  The bytes it hands to [sendto] are those of a
    tracked packet, which [sendto] took when [send_message] sent them. *)
Definition retransmit_item (current : float)
    (acc : client * list effect) (item : Z * tracked)
    : client * list effect :=
  let '(c, out) := acc in
  let '(seqno, info) := item in
  let elapsed := (current - send_time info)%float in
  if (TIMEOUT <? elapsed)%float then
    if (MAX_THRESHOLD <? elapsed)%float then
      ({| addr := addr c; seqno := Client.seqno c;
          pending_packets := dict_del seqno (pending_packets c);
          metrics := metrics c |}, out)
    else
      let m := metrics c in
      ({| addr := addr c; seqno := Client.seqno c;
          pending_packets :=
            dict_set seqno
              {| packet := packet info; send_time := current;
                 retries := retries info + 1 |}
              (pending_packets c);
          metrics :=
            {| packets_sent_reliable := packets_sent_reliable m;
               packets_sent_unreliable := packets_sent_unreliable m;
               packets_acked := packets_acked m;
               retransmissions := retransmissions m + 1;
               latencies := latencies m;
               bytes_sent := bytes_sent m |} |},
       out ++ [SendTo (packet info) (addr c)])
  else (c, out).

(** One iteration of the loop of [_retransmit_checker], after the sleep:
    [current] is the clock read once for the whole pass. *)
Definition _retransmit_checker (current : float) (c : client)
    : client * list effect :=
  foldl (retransmit_item current) (c, []) (pending_packets c).



(** What a pass of [_retransmit_checker] at time [current] makes of one
    tracked entry ([None]: the entry is dropped), and the datagram it
    sends for it, if any: the three branches of [retransmit_item], taken
    apart. *)
Definition entry_after_pass (current : float) (info : tracked)
    : option tracked :=
  let elapsed := (current - send_time info)%float in
  if (TIMEOUT <? elapsed)%float then
    if (MAX_THRESHOLD <? elapsed)%float then None
    else Some {| packet := packet info; send_time := current;
                 retries := retries info + 1 |}
  else Some info.

Definition resent_in_pass (current : float) (a : address)
    (item : Z * tracked) : option effect :=
  let elapsed := (current - send_time item.2)%float in
  if ((TIMEOUT <? elapsed) && negb (MAX_THRESHOLD <? elapsed))%float
  then Some (SendTo (packet item.2) a)
  else None.

(** *** Runs of the client *)

(** What the application and the two threads do to a client, one atomic
    step each: a call of [send_message], an iteration of [_ack_listener]
    on a datagram that came in, a pass of [_retransmit_checker]. *)
Inductive event :=
| Send (payload : str) (isReliable : bool) (t_stamp t_send : float)
| Datagram (data : bytes) (now : float)
| Retransmit (current : float).

(** A call of [send_message] that raises leaves the client as it was: the
    exceptions come before the first assignment. *)
Definition step (ev : event) (c : client) : client * list effect :=
  match ev with
  | Send payload isReliable t_stamp t_send =>
      match send_message payload isReliable t_stamp t_send c with
      | Some (c', out, _) => (c', out)
      | None => (c, [])
      end
  | Datagram data now => (_ack_listener data now c, [])
  | Retransmit current => _retransmit_checker current c
  end.

Fixpoint run (evs : list event) (c : client) : client * list effect :=
  match evs with
  | [] => (c, [])
  | ev :: evs' =>
      let '(c1, out1) := step ev c in
      let '(c2, out2) := run evs' c1 in
      (c2, out1 ++ out2)
  end.

(** An entry of [pending_packets] is what a reliable send stores: the key
    is a sequence number already given out, and the bytes are a reliable
    packet that carries this number and that the socket has taken before,
    so that [sendto] takes it again. *)
Definition tracked_ok (c : client) (k : Z) (info : tracked) : Prop :=
  0 <= k < seqno c
  /\ 0 <= retries info
  /\ (HEADER_SIZE <= length (packet info))%nat
  /\ Z.of_nat (length (packet info)) <= MAX_DATAGRAM
  /\ exists timestamp,
       unpack_BQQ (take HEADER_SIZE (packet info)) = Some (0, k, timestamp).

(** A state the client can be in. *)
Definition reachable (c : client) : Prop :=
  exists host port evs, c = (run evs (init host port)).1.

(** What holds of a client whatever the calls and the threads did: the
    tracked entries have distinct keys and are reliable packets sent
    earlier, the sequence number counts the packets sent and has not left
    the range of the header field, and every reliable packet sent is
    acknowledged once, still tracked, or given up. *)
Definition client_ok (c : client) : Prop :=
  let m := metrics c in
  dict_wf (pending_packets c)
  /\ (forall k info, dict_get k (pending_packets c) = Some info ->
                     tracked_ok c k info)
  /\ 0 <= seqno c <= 2 ^ 64
  /\ seqno c = packets_sent_reliable m + packets_sent_unreliable m
  /\ 0 <= packets_sent_unreliable m
  /\ packets_acked m = Z.of_nat (length (latencies m))
  /\ packets_acked m + Z.of_nat (length (pending_packets c))
     <= packets_sent_reliable m
  /\ 0 <= retransmissions m
  /\ 0 <= bytes_sent m.

(** The datagram [e] goes to [peer] and starts with a header of one of
    the two channels and a sequence number below [bound]. *)
Definition framed (bound : Z) (peer : address) (e : effect) : Prop :=
  exists data channel_type k timestamp,
    e = SendTo data peer
    /\ (HEADER_SIZE <= length data)%nat
    /\ unpack_BQQ (take HEADER_SIZE data) = Some (channel_type, k, timestamp)
    /\ (channel_type = 0 \/ channel_type = 1)
    /\ 0 <= k < bound.

End Client.

(** ** server.py: class HUDPServer *)

Module Server.

Definition HEADER_SIZE : nat := 17.
Definition TIMEOUT_THRESHOLD : float := 0.2.

(** [self.metrics] *)
Record server_metrics := Metrics {
  packets_received_reliable : Z;
  packets_received_unreliable : Z;
  packets_delivered_reliable : Z;
  packets_delivered_unreliable : Z;
  packets_skipped : Z;
  bytes_received : Z;
  jitter : float;
  last_arrival : option float;
  last_timestamp : option Z;
  start_time : float
}.

(** The fields of a [HUDPServer] the protocol reads and writes.
    [reliable_buffer] is the reorder buffer, [pending_packets] the
    gap-wait map, [next_expected_reliable] the delivery cursor. *)
Record server := Server {
  reliable_buffer : gmap Z str;
  pending_packets : gmap Z float;
  next_expected_reliable : Z;
  gap_start_time : option float;
  unreliable_queue : list (Z * str);
  metrics : server_metrics
}.

(** [__init__(host, port)]; [start] is the clock read for
    [metrics['start_time']]. *)
Definition init (start : float) : server :=
  {| reliable_buffer := ∅;
     pending_packets := ∅;
     next_expected_reliable := 0;
     gap_start_time := None;
     unreliable_queue := [];
     metrics :=
       {| packets_received_reliable := 0; packets_received_unreliable := 0;
          packets_delivered_reliable := 0; packets_delivered_unreliable := 0;
          packets_skipped := 0; bytes_received := 0; jitter := 0;
          last_arrival := None; last_timestamp := None;
          start_time := start |} |}.

(** [k in d] *)
Definition contains {V} (d : gmap Z V) (k : Z) : bool :=
  bool_decide (is_Some (d !! k)).

(** The body of the loop [for i in range(next_expected_reliable, seqno)]
    of [_handle_reliable_channel]. *)
Definition mark_gap (buffer : gmap Z str) (start_time : float)
    (pending : gmap Z float) (i : Z) : gmap Z float :=
  if contains pending i || contains buffer i then pending
  else <[i := start_time]> pending.

(** [_handle_reliable_channel(seqno, payload, client_addr)]; [now] is
    the clock read for [start_time].  [None] is the [struct.error] of
    packing a [seqno] that is no unsigned 64-bit number; it is raised
    before anything is sent or changed. *)
Definition _handle_reliable_channel (seqno : Z) (payload : str)
    (client_addr : address) (now : float) (s : server)
    : option (server * list effect) :=
  ack ← pack_BQ 255 seqno;
  let out := [SendTo ack client_addr] in
  if decide (seqno < next_expected_reliable s) then Some (s, out)
  else if contains (reliable_buffer s) seqno then Some (s, out)
  else
    let buffer := <[seqno := payload]> (reliable_buffer s) in
    let pending := delete seqno (pending_packets s) in
    let pending :=
      if decide (seqno > next_expected_reliable s) then
        foldl (mark_gap buffer now) pending
          (seqZ (next_expected_reliable s)
                (seqno - next_expected_reliable s))
      else pending in
    Some ({| reliable_buffer := buffer;
             pending_packets := pending;
             next_expected_reliable := next_expected_reliable s;
             gap_start_time := gap_start_time s;
             unreliable_queue := unreliable_queue s;
             metrics := metrics s |}, out).

(** [_handle_unreliable_channel(seqno, payload)] *)
Definition _handle_unreliable_channel (seqno : Z) (payload : str)
    (s : server) : server :=
  {| reliable_buffer := reliable_buffer s;
     pending_packets := pending_packets s;
     next_expected_reliable := next_expected_reliable s;
     gap_start_time := gap_start_time s;
     unreliable_queue := unreliable_queue s ++ [(seqno, payload)];
     metrics := metrics s |}.

Definition set_metrics (m : server_metrics) (s : server) : server :=
  {| reliable_buffer := reliable_buffer s;
     pending_packets := pending_packets s;
     next_expected_reliable := next_expected_reliable s;
     gap_start_time := gap_start_time s;
     unreliable_queue := unreliable_queue s;
     metrics := m |}.

(** [receive_reliable()]: the new state and the value returned, a pair
    [(seqno, payload)] or [None]. *)
Definition receive_reliable (s : server) : server * option (Z * str) :=
  match reliable_buffer s !! next_expected_reliable s with
  | Some payload =>
      let seqno := next_expected_reliable s in
      let m := metrics s in
      ({| reliable_buffer := delete seqno (reliable_buffer s);
          pending_packets := pending_packets s;
          next_expected_reliable := next_expected_reliable s + 1;
          gap_start_time := None;
          unreliable_queue := unreliable_queue s;
          metrics :=
            {| packets_received_reliable := packets_received_reliable m;
               packets_received_unreliable := packets_received_unreliable m;
               packets_delivered_reliable := packets_delivered_reliable m + 1;
               packets_delivered_unreliable := packets_delivered_unreliable m;
               packets_skipped := packets_skipped m;
               bytes_received := bytes_received m;
               jitter := jitter m;
               last_arrival := last_arrival m;
               last_timestamp := last_timestamp m;
               start_time := start_time m |} |},
       Some (seqno, payload))
  | None => (s, None)
  end.

(** [receive_unreliable()] *)
Definition receive_unreliable (s : server) : server * option (Z * str) :=
  match unreliable_queue s with
  | packet :: queue =>
      ({| reliable_buffer := reliable_buffer s;
          pending_packets := pending_packets s;
          next_expected_reliable := next_expected_reliable s;
          gap_start_time := gap_start_time s;
          unreliable_queue := queue;
          metrics := metrics s |}, Some packet)
  | [] => (s, None)
  end.

(** One iteration of the loop of [_timeout_checker], after the sleep;
    [now] is the clock read for [elapsed]. *)
Definition _timeout_checker (now : float) (s : server) : server :=
  match pending_packets s !! next_expected_reliable s with
  | Some start_time =>
      let elapsed := (now - start_time)%float in
      if (TIMEOUT_THRESHOLD <? elapsed)%float then
        let seqno := next_expected_reliable s in
        let m := metrics s in
        {| reliable_buffer := reliable_buffer s;
           pending_packets := delete seqno (pending_packets s);
           next_expected_reliable := seqno + 1;
           gap_start_time := gap_start_time s;
           unreliable_queue := unreliable_queue s;
           metrics :=
             {| packets_received_reliable := packets_received_reliable m;
                packets_received_unreliable := packets_received_unreliable m;
                packets_delivered_reliable := packets_delivered_reliable m;
                packets_delivered_unreliable := packets_delivered_unreliable m;
                packets_skipped := packets_skipped m + 1;
                bytes_received := bytes_received m;
                jitter := jitter m;
                last_arrival := last_arrival m;
                last_timestamp := last_timestamp m;
                start_time := Server.start_time m |} |}
      else s
  | None => s
  end.

(** The update of the smoothed jitter [J] by a sample [D]. *)
Definition smooth (J D : float) : float := (J + (abs D - J) / 16)%float.

(** [_calculate_jitter(timestamp, arrival_time)], on [self.metrics].
    [None] is an exception raised by the arithmetic, before any
    assignment: a [TypeError] when [last_timestamp] is [None] next to a
    [last_arrival], or the [OverflowError] of an [int] too large for a
    float. *)
Definition _calculate_jitter (timestamp : Z) (arrival_time : float)
    (m : server_metrics) : option server_metrics :=
  J ← match last_arrival m with
      | Some last =>
          last_ts ← last_timestamp m;
          dt ← float_of_int (timestamp - last_ts);
          let D := ((arrival_time - last) - dt / 1000)%float in
          Some (smooth (jitter m) D)
      | None => Some (jitter m)
      end;
  Some {| packets_received_reliable := packets_received_reliable m;
          packets_received_unreliable := packets_received_unreliable m;
          packets_delivered_reliable := packets_delivered_reliable m;
          packets_delivered_unreliable := packets_delivered_unreliable m;
          packets_skipped := packets_skipped m;
          bytes_received := bytes_received m;
          jitter := J;
          last_arrival := Some arrival_time;
          last_timestamp := Some timestamp;
          start_time := start_time m |}.

(** The two counters [_packet_receiver] adds to for a reliable packet. *)
Definition count_reliable (payload : str) (m : server_metrics)
    : server_metrics :=
  {| packets_received_reliable := packets_received_reliable m + 1;
     packets_received_unreliable := packets_received_unreliable m;
     packets_delivered_reliable := packets_delivered_reliable m;
     packets_delivered_unreliable := packets_delivered_unreliable m;
     packets_skipped := packets_skipped m;
     bytes_received := bytes_received m + Z.of_nat (length payload);
     jitter := jitter m;
     last_arrival := last_arrival m;
     last_timestamp := last_timestamp m;
     start_time := start_time m |}.

(** One iteration of the loop of [_packet_receiver], for the bytes
    [data] that [recvfrom(1024)] returned, from [client_addr]: a datagram,
    or the first 1024 bytes of a longer one.  [arrival_time] is the
    clock read in the loop, [now] the one the handler may read.
    An exception inside the [try] ends the iteration with what was
    already assigned. *)
Definition _packet_receiver (data : bytes) (client_addr : address)
    (arrival_time now : float) (s : server) : server * list effect :=
  if decide (length data < HEADER_SIZE)%nat then (s, [])
  else
    match unpack_BQQ (take HEADER_SIZE data) with
    | None => (s, [])
    | Some (channel_type, seqno, timestamp) =>
        match utf8_decode (drop HEADER_SIZE data) with
        | None => (s, [])
        | Some payload =>
            if decide (channel_type = 0) then
              let m := count_reliable payload (metrics s) in
              match _calculate_jitter timestamp arrival_time m with
              | None => (set_metrics m s, [])
              | Some m' =>
                  match _handle_reliable_channel seqno payload client_addr
                          now (set_metrics m' s) with
                  | None => (set_metrics m' s, [])
                  | Some r => r
                  end
              end
            else if decide (channel_type = 1) then
              (_handle_unreliable_channel seqno payload s, [])
            else (s, [])
        end
    end.

(** The ways an iteration of [_packet_receiver] can end: the datagram is
    dropped, or only counted, or handed to one of the two handlers. *)
Inductive receiver_case (a : address) (now : float) (s : server)
    : server * list effect -> Prop :=
| rc_dropped : receiver_case a now s (s, [])
| rc_counted m :
    packets_skipped m = packets_skipped (metrics s) ->
    receiver_case a now s (set_metrics m s, [])
| rc_reliable m seqno payload r :
    packets_skipped m = packets_skipped (metrics s) ->
    _handle_reliable_channel seqno payload a now (set_metrics m s) = Some r ->
    receiver_case a now s r
| rc_unreliable seqno payload :
    receiver_case a now s (_handle_unreliable_channel seqno payload s, []).

(** *** Runs of the server *)

(** What the threads and the application do to a server, one atomic
    step each. *)
Inductive event :=
| Packet (data : bytes) (client_addr : address) (arrival_time now : float)
| ReceiveReliable
| ReceiveUnreliable
| Timeout (now : float).

(** What a step gives back: a datagram to the socket, or the pair that
    [receive_reliable] or [receive_unreliable] returned. *)
Inductive output :=
| Socket (e : effect)
| Reliable (r : Z * str)
| Unreliable (r : Z * str).

Definition step (ev : event) (s : server) : server * list output :=
  match ev with
  | Packet data client_addr arrival_time now =>
      let '(s', out) := _packet_receiver data client_addr arrival_time now s in
      (s', Socket <$> out)
  | ReceiveReliable =>
      let '(s', r) := receive_reliable s in
      (s', match r with Some r => [Reliable r] | None => [] end)
  | ReceiveUnreliable =>
      let '(s', r) := receive_unreliable s in
      (s', match r with Some r => [Unreliable r] | None => [] end)
  | Timeout now => (_timeout_checker now s, [])
  end.

Fixpoint run (evs : list event) (s : server) : server * list output :=
  match evs with
  | [] => (s, [])
  | ev :: evs' =>
      let '(s1, out1) := step ev s in
      let '(s2, out2) := run evs' s1 in
      (s2, out1 ++ out2)
  end.

(** The pairs [receive_reliable] returned, in order. *)
Definition delivered (out : list output) : list (Z * str) :=
  omap (fun o => match o with Reliable r => Some r | _ => None end) out.




(** A state the server can be in. *)
Definition reachable (s : server) : Prop :=
  exists start evs, s = (run evs (init start)).1.

(** No sequence number is a key of both the reorder buffer and the
    gap-wait map. *)
Definition disjoint (s : server) : Prop :=
  dom (reliable_buffer s) ## dom (pending_packets s).

(** [_calculate_jitter] called for a sequence of arrivals
    [(timestamp, arrival_time)], as [_packet_receiver] does for the
    reliable datagrams it reads. *)
Fixpoint calculate_jitter_all (samples : list (Z * float))
    (m : server_metrics) : option server_metrics :=
  match samples with
  | [] => Some m
  | (timestamp, arrival_time) :: rest =>
      m' ← _calculate_jitter timestamp arrival_time m;
      calculate_jitter_all rest m'
  end.

(** The previous sample of the jitter estimator is complete: next to a
    [last_arrival] there is a [last_timestamp], an unsigned 64-bit number
    as [struct.unpack] gives them. *)
Definition sample_ok (m : server_metrics) : Prop :=
  match last_arrival m with
  | Some _ => exists t, last_timestamp m = Some t /\ 0 <= t < 2 ^ 64
  | None => True
  end.

(** The pairs [receive_unreliable] returned, in order. *)
Definition unreliable_delivered (out : list output) : list (Z * str) :=
  omap (fun o => match o with Unreliable r => Some r | _ => None end) out.

(** What [_packet_receiver] reads from a datagram before it looks at the
    channel: the three header fields and the payload; [None] when the
    datagram is shorter than a header or the payload is no UTF-8. *)
Definition read_datagram (data : bytes) : option (Z * Z * Z * str) :=
  if decide (length data < HEADER_SIZE)%nat then None
  else
    header ← unpack_BQQ (take HEADER_SIZE data);
    payload ← utf8_decode (drop HEADER_SIZE data);
    Some (header, payload).

(** The unreliable packets read in a run, in the order of arrival. *)
Definition unreliable_read (evs : list event) : list (Z * str) :=
  omap (fun ev =>
          match ev with
          | Packet data _ _ _ =>
              match read_datagram data with
              | Some (channel_type, seqno, _, payload) =>
                  if decide (channel_type = 1) then Some (seqno, payload)
                  else None
              | None => None
              end
          | _ => None
          end) evs.

(** The window between the cursor and the buffered packets: nothing is
    kept below the cursor, and every sequence number from the cursor up to
    a buffered one is itself buffered or awaited. *)
Definition window_ok (s : server) : Prop :=
  (forall k, k ∈ dom (reliable_buffer s) -> next_expected_reliable s <= k)
  /\ (forall k, k ∈ dom (pending_packets s) -> next_expected_reliable s <= k)
  /\ (forall k i, k ∈ dom (reliable_buffer s) ->
        next_expected_reliable s <= i < k ->
        i ∈ dom (reliable_buffer s) \/ i ∈ dom (pending_packets s)).

(** What the counters of [self.metrics] say about the state: the cursor
    has passed the packets delivered and the packets skipped and no
    others, every packet delivered or buffered was counted when it came
    in, and the two counters of the unreliable channel are never written. *)
Definition counters_ok (s : server) : Prop :=
  let m := metrics s in
  next_expected_reliable s
  = packets_delivered_reliable m + packets_skipped m
  /\ 0 <= packets_delivered_reliable m
  /\ 0 <= packets_skipped m
  /\ packets_delivered_reliable m + Z.of_nat (size (reliable_buffer s))
     <= packets_received_reliable m
  /\ 0 <= bytes_received m
  /\ packets_received_unreliable m = 0
  /\ packets_delivered_unreliable m = 0.

(** The datagram [e] is the ack of a reliable packet read in [evs], sent
    to where that packet came from. *)
Definition answers (evs : list event) (e : effect) : Prop :=
  exists data client_addr arrival_time now seqno timestamp payload ack,
    Packet data client_addr arrival_time now ∈ evs
    /\ read_datagram data = Some (0, seqno, timestamp, payload)
    /\ pack_BQ 255 seqno = Some ack
    /\ e = SendTo ack client_addr.



End Server.

(** ** Example values *)

Module Example.

Definition peer : address := ("127.0.0.1"%string, 50000).

(** The datagram of a reliable packet. *)
Definition datagram (seqno timestamp : Z) (payload : str) : bytes :=
  default [] (header ← pack_BQQ 0 seqno timestamp;
              body ← utf8_encode payload;
              Some (header ++ body)).

(** A server that has read packet 1 before packet 0. *)
Definition waiting : Server.server :=
  (Server.run [Server.Packet (datagram 1 1010 [98]) peer 1.0 1.0]
              (Server.init 0)).1.

(** A client that has sent one reliable packet. *)
Definition sender : Client.client :=
  match Client.send_message [104; 105] true 1.5 1.5
          (Client.init "127.0.0.1" 65432) with
  | Some (c, _, _) => c
  | None => Client.init "127.0.0.1" 65432
  end.






End Example.

(** ** Facts about UTF-8 *)

Section Utf8.

Lemma unsigned_of_Z_small x : 0 <= x < 256 -> byte.unsigned (byte.of_Z x) = x.
Proof.
  intros H. rewrite byte.unsigned_of_Z. unfold byte.wrap.
  apply Z.mod_small. lia.
Qed.

Lemma between_of_Z lo hi x :
  0 <= x < 256 ->
  between lo hi (byte.of_Z x) = bool_decide (lo <= x <= hi).
Proof. intros H. unfold between. by rewrite unsigned_of_Z_small. Qed.

Lemma utf8_decode_1 b0 r :
  between 0 127 b0 = true ->
  utf8_decode (b0 :: r) = (s ← utf8_decode r; Some (byte.unsigned b0 :: s)).
Proof. intros H. cbn [utf8_decode]. by rewrite H. Qed.

Lemma utf8_decode_2 b0 b1 r :
  between 0 127 b0 = false ->
  between 194 223 b0 = true ->
  between 128 191 b1 = true ->
  utf8_decode (b0 :: b1 :: r)
  = (s ← utf8_decode r;
     Some ((byte.unsigned b0 mod 32) * 64 + low6 b1 :: s)).
Proof. intros H0 H1 H2. cbn [utf8_decode]. by rewrite H0, H1, H2. Qed.

Lemma utf8_decode_3 b0 b1 b2 r :
  between 0 127 b0 = false ->
  between 194 223 b0 = false ->
  between 224 239 b0 = true ->
  between (if between 224 224 b0 then 160 else 128)
          (if between 237 237 b0 then 159 else 191) b1 = true ->
  between 128 191 b2 = true ->
  utf8_decode (b0 :: b1 :: b2 :: r)
  = (s ← utf8_decode r;
     Some ((byte.unsigned b0 mod 16) * 4096 + low6 b1 * 64 + low6 b2 :: s)).
Proof.
  intros H0 H1 H2 H3 H4. cbn [utf8_decode]. by rewrite H0, H1, H2, H3, H4.
Qed.

Lemma utf8_decode_4 b0 b1 b2 b3 r :
  between 0 127 b0 = false ->
  between 194 223 b0 = false ->
  between 224 239 b0 = false ->
  between 240 244 b0 = true ->
  between (if between 240 240 b0 then 144 else 128)
          (if between 244 244 b0 then 143 else 191) b1 = true ->
  between 128 191 b2 = true ->
  between 128 191 b3 = true ->
  utf8_decode (b0 :: b1 :: b2 :: b3 :: r)
  = (s ← utf8_decode r;
     Some ((byte.unsigned b0 mod 8) * 262144 + low6 b1 * 4096
           + low6 b2 * 64 + low6 b3 :: s)).
Proof.
  intros H0 H1 H2 H3 H4 H5 H6. cbn [utf8_decode].
  by rewrite H0, H1, H2, H3, H4, H5, H6.
Qed.

Ltac between_tac :=
  rewrite ?between_of_Z by lia;
  repeat (first [rewrite bool_decide_eq_true_2 by lia
                |rewrite bool_decide_eq_false_2 by lia]);
  try reflexivity.

Lemma decode_encode_cp c b rest :
  encode_cp c = Some b ->
  utf8_decode (b ++ rest) = (s ← utf8_decode rest; Some (c :: s)).
Proof.
  unfold encode_cp, cont. intros H.
  repeat case_decide; simplify_eq; cbn [app].
  - rewrite utf8_decode_1 by between_tac.
    by rewrite unsigned_of_Z_small by lia.
  - assert (2 <= c / 64 < 32) by (Z.div_mod_to_equations; lia).
    assert (0 <= c mod 64 < 64) by (Z.div_mod_to_equations; lia).
    rewrite utf8_decode_2 by between_tac.
    unfold low6. rewrite !unsigned_of_Z_small by lia.
    replace ((192 + c / 64) mod 32 * 64 + (128 + c mod 64) mod 64) with c
      by (Z.div_mod_to_equations; lia).
    done.
  - assert (0 <= c / 4096 < 16) by (Z.div_mod_to_equations; lia).
    assert (0 <= (c / 64) mod 64 < 64) by (Z.div_mod_to_equations; lia).
    assert (0 <= c mod 64 < 64) by (Z.div_mod_to_equations; lia).
    assert (c / 4096 = 0 -> 32 <= (c / 64) mod 64)
      by (Z.div_mod_to_equations; lia).
    assert (c / 4096 = 13 -> (c / 64) mod 64 < 32)
      by (Z.div_mod_to_equations; lia).
    rewrite utf8_decode_3.
    + unfold low6. rewrite !unsigned_of_Z_small by lia.
      replace ((224 + c / 4096) mod 16 * 4096
               + (128 + (c / 64) mod 64) mod 64 * 64
               + (128 + c mod 64) mod 64) with c
        by (Z.div_mod_to_equations; lia).
      done.
    + between_tac.
    + between_tac.
    + between_tac.
    + rewrite !between_of_Z by lia.
      repeat case_bool_decide; try reflexivity; lia.
    + between_tac.
  - assert (0 <= c / 262144 < 5) by (Z.div_mod_to_equations; lia).
    assert (0 <= (c / 4096) mod 64 < 64) by (Z.div_mod_to_equations; lia).
    assert (0 <= (c / 64) mod 64 < 64) by (Z.div_mod_to_equations; lia).
    assert (0 <= c mod 64 < 64) by (Z.div_mod_to_equations; lia).
    assert (c / 262144 = 0 -> 16 <= (c / 4096) mod 64)
      by (Z.div_mod_to_equations; lia).
    assert (c / 262144 = 4 -> (c / 4096) mod 64 < 16)
      by (Z.div_mod_to_equations; lia).
    rewrite utf8_decode_4.
    + unfold low6. rewrite !unsigned_of_Z_small by lia.
      replace ((240 + c / 262144) mod 8 * 262144
               + (128 + (c / 4096) mod 64) mod 64 * 4096
               + (128 + (c / 64) mod 64) mod 64 * 64
               + (128 + c mod 64) mod 64) with c
        by (Z.div_mod_to_equations; lia).
      done.
    + between_tac.
    + between_tac.
    + between_tac.
    + between_tac.
    + rewrite !between_of_Z by lia.
      repeat case_bool_decide; try reflexivity; lia.
    + between_tac.
    + between_tac.
Qed.

Lemma decode_encode s : forall bs,
  utf8_encode s = Some bs -> utf8_decode bs = Some s.
Proof.
  induction s as [|c s IH]; intros bs; simpl.
  - by intros [= <-].
  - destruct (encode_cp c) as [b|] eqn:Ec; simpl; [|done].
    destruct (utf8_encode s) as [bs'|]; simpl; [|done].
    intros [= <-]. rewrite (decode_encode_cp c b bs' Ec).
    by rewrite (IH bs' eq_refl).
Qed.
End Utf8.

(** ** Facts about the server *)

Section ServerFacts.
Import Server.

Lemma contains_dom {V} (d : gmap Z V) (k : Z) :
  contains d k = true <-> k ∈ dom d.
Proof.
  unfold contains. rewrite bool_decide_eq_true. symmetry. apply elem_of_dom.
Qed.

Lemma contains_lookup {V} (d : gmap Z V) (k : Z) :
  contains d k = false <-> d !! k = None.
Proof.
  unfold contains. rewrite bool_decide_eq_false, eq_None_not_Some. done.
Qed.

Lemma mark_gap_dom buffer t pending i k :
  k ∈ dom (mark_gap buffer t pending i) <->
  k ∈ dom pending \/ (k = i /\ k ∉ dom buffer).
Proof.
  unfold mark_gap.
  destruct (contains pending i) eqn:Hp; simpl.
  { apply contains_dom in Hp. split; [tauto|]. intros [?|[-> ?]]; done. }
  destruct (contains buffer i) eqn:Hb.
  { apply contains_dom in Hb. split; [tauto|]. intros [?|[-> ?]]; done. }
  rewrite dom_insert, elem_of_union, elem_of_singleton.
  assert (i ∉ dom buffer).
  { intros H%contains_dom. congruence. }
  split; intros [?|?]; subst; tauto.
Qed.

Lemma fold_mark_gap_dom buffer t l pending k :
  k ∈ dom (foldl (mark_gap buffer t) pending l) <->
  k ∈ dom pending \/ (k ∈ l /\ k ∉ dom buffer).
Proof.
  revert pending. induction l as [|i l IH]; intros pending; simpl.
  - rewrite elem_of_nil. tauto.
  - rewrite IH, mark_gap_dom, elem_of_cons. tauto.
Qed.

(** What [_handle_reliable_channel] leaves alone. *)
Lemma handle_frame seqno payload a now s s' out :
  _handle_reliable_channel seqno payload a now s = Some (s', out) ->
  next_expected_reliable s' = next_expected_reliable s
  /\ metrics s' = metrics s
  /\ unreliable_queue s' = unreliable_queue s
  /\ gap_start_time s' = gap_start_time s.
Proof.
  unfold _handle_reliable_channel. intros H.
  destruct (pack_BQ 255 seqno); simpl in H; [|done].
  repeat case_match; simplify_eq; done.
Qed.

Lemma handle_stale seqno payload a now s s' out :
  seqno < next_expected_reliable s ->
  _handle_reliable_channel seqno payload a now s = Some (s', out) ->
  s' = s.
Proof.
  unfold _handle_reliable_channel. intros Hlt H.
  destruct (pack_BQ 255 seqno); simpl in H; [|done].
  rewrite decide_True in H by done. by simplify_eq.
Qed.

Lemma handle_disjoint seqno payload a now s s' out :
  disjoint s ->
  _handle_reliable_channel seqno payload a now s = Some (s', out) ->
  disjoint s'.
Proof.
  unfold _handle_reliable_channel, disjoint. intros Hd H.
  destruct (pack_BQ 255 seqno); simpl in H; [|done].
  destruct (decide (seqno < _)); [by simplify_eq|].
  destruct (contains _ seqno) eqn:Hc; [by simplify_eq|].
  simplify_eq. simpl.
  apply elem_of_disjoint. intros k Hb Hp.
  assert (k ∈ dom (delete seqno (pending_packets s))) as Hk.
  { case_decide; [|done].
    apply fold_mark_gap_dom in Hp as [?|[_ ?]]; done. }
  rewrite dom_delete, elem_of_difference, not_elem_of_singleton in Hk.
  rewrite dom_insert, elem_of_union, elem_of_singleton in Hb.
  destruct Hk, Hb; [done|]. set_solver.
Qed.

Lemma calculate_jitter_skipped ts a m m' :
  _calculate_jitter ts a m = Some m' ->
  packets_skipped m' = packets_skipped m.
Proof.
  unfold _calculate_jitter. intros H.
  destruct (match last_arrival m with Some _ => _ | None => _ end);
    simpl in H; by simplify_eq.
Qed.

Lemma packet_receiver_case data a arrival now s :
  receiver_case a now s (_packet_receiver data a arrival now s).
Proof.
  unfold _packet_receiver.
  case_decide; [constructor|].
  destruct (unpack_BQQ _) as [[[ch seqno] ts]|]; [|constructor].
  destruct (utf8_decode _) as [payload|]; [|constructor].
  case_decide.
  - destruct (_calculate_jitter _ _ _) as [m'|] eqn:Hj.
    + apply calculate_jitter_skipped in Hj. simpl in Hj.
      destruct (_handle_reliable_channel _ _ _ _ _) as [r|] eqn:Hh.
      * by eapply rc_reliable.
      * by apply rc_counted.
    + by apply rc_counted.
  - case_decide; constructor.
Qed.

(** The cursor and the skip counter after one step. *)
Lemma packet_receiver_frame data a arrival now s :
  let s' := (_packet_receiver data a arrival now s).1 in
  next_expected_reliable s' = next_expected_reliable s
  /\ packets_skipped (metrics s') = packets_skipped (metrics s).
Proof.
  simpl. destruct (packet_receiver_case data a arrival now s)
    as [|m Hm|m seqno payload [s' out] Hm Hh|]; simpl; try done.
  apply handle_frame in Hh as (-> & -> & _). done.
Qed.

Lemma packet_receiver_disjoint data a arrival now s :
  disjoint s -> disjoint (_packet_receiver data a arrival now s).1.
Proof.
  intros Hd. destruct (packet_receiver_case data a arrival now s)
    as [|m Hm|m seqno payload [s' out] Hm Hh|]; simpl; try done.
  by eapply handle_disjoint in Hh.
Qed.

Lemma receive_reliable_disjoint s :
  disjoint s -> disjoint (receive_reliable s).1.
Proof.
  unfold receive_reliable, disjoint. intros Hd.
  destruct (_ !! _); simpl; [|done].
  rewrite dom_delete. intros k [Hk _]%elem_of_difference Hp. by apply (Hd k).
Qed.

Lemma timeout_checker_disjoint now s :
  disjoint s -> disjoint (_timeout_checker now s).
Proof.
  unfold _timeout_checker, disjoint. intros Hd.
  destruct (_ !! _); [|done]. destruct (_ <? _)%float; [|done]. simpl.
  rewrite dom_delete. intros k Hb [Hp _]%elem_of_difference. by apply (Hd k).
Qed.

Lemma receive_unreliable_frame s :
  let s' := (receive_unreliable s).1 in
  reliable_buffer s' = reliable_buffer s
  /\ pending_packets s' = pending_packets s
  /\ next_expected_reliable s' = next_expected_reliable s
  /\ metrics s' = metrics s.
Proof. unfold receive_unreliable. by destruct (unreliable_queue s). Qed.

Lemma step_disjoint ev s : disjoint s -> disjoint (step ev s).1.
Proof.
  intros Hd. destruct ev as [data a arrival now| | |now]; simpl.
  - destruct (_packet_receiver _ _ _ _ _) eqn:E. simpl.
    change s0 with (s0, l).1. rewrite <- E. by apply packet_receiver_disjoint.
  - destruct (receive_reliable s) eqn:E. simpl.
    change s0 with (s0, o).1. rewrite <- E. by apply receive_reliable_disjoint.
  - destruct (receive_unreliable s) eqn:E. simpl.
    pose proof (receive_unreliable_frame s) as (Hb & Hp & _).
    rewrite E in Hb, Hp. simpl in *. unfold disjoint. by rewrite Hb, Hp.
  - by apply timeout_checker_disjoint.
Qed.

Lemma run_cons ev evs s :
  run (ev :: evs) s =
  ((run evs (step ev s).1).1, (step ev s).2 ++ (run evs (step ev s).1).2).
Proof.
  simpl. destruct (step ev s) as [s1 o1]. simpl.
  by destruct (run evs s1).
Qed.


Lemma run_disjoint evs s : disjoint s -> disjoint (run evs s).1.
Proof.
  revert s. induction evs as [|ev evs IH]; intros s Hd; [done|].
  rewrite run_cons. simpl. by apply IH, step_disjoint.
Qed.

Lemma delivered_socket (out : list effect) : delivered (Socket <$> out) = [].
Proof. by induction out. Qed.

Lemma delivered_app o1 o2 : delivered (o1 ++ o2) = delivered o1 ++ delivered o2.
Proof. apply omap_app. Qed.

Lemma receive_reliable_cursor s :
  next_expected_reliable (receive_reliable s).1 =
  next_expected_reliable s
  + match (receive_reliable s).2 with Some _ => 1 | None => 0 end
  /\ packets_skipped (metrics (receive_reliable s).1) = packets_skipped (metrics s).
Proof.
  unfold receive_reliable. destruct (_ !! _); simpl; split; lia.
Qed.

Lemma timeout_checker_cursor now s :
  let s' := _timeout_checker now s in
  let d := packets_skipped (metrics s') - packets_skipped (metrics s) in
  next_expected_reliable s' = next_expected_reliable s + d /\ 0 <= d <= 1.
Proof.
  unfold _timeout_checker. destruct (_ !! _); simpl; [|lia].
  destruct (_ <? _)%float; simpl; lia.
Qed.

(** The cursor moves by the number of deliveries plus the number of skips. *)
Lemma step_cursor ev s :
  next_expected_reliable (step ev s).1 =
  next_expected_reliable s
  + Z.of_nat (length (delivered (step ev s).2))
  + (packets_skipped (metrics (step ev s).1) - packets_skipped (metrics s))
  /\ packets_skipped (metrics s) <= packets_skipped (metrics (step ev s).1).
Proof.
  destruct ev as [data a arrival now| | |now]; simpl.
  - pose proof (packet_receiver_frame data a arrival now s) as [Hn Hk].
    destruct (_packet_receiver _ _ _ _ _) as [s' out]. simpl in *.
    rewrite delivered_socket. simpl. lia.
  - pose proof (receive_reliable_cursor s) as [Hn Hk].
    destruct (receive_reliable s) as [s' [r|]]; simpl in *; lia.
  - pose proof (receive_unreliable_frame s) as (_ & _ & Hn & Hm).
    destruct (receive_unreliable s) as [s' [r|]]; simpl in *;
      rewrite Hm; lia.
  - pose proof (timeout_checker_cursor now s) as [Hn Hk]. simpl in *. lia.
Qed.

Lemma run_cursor evs s :
  next_expected_reliable (run evs s).1 =
  next_expected_reliable s
  + Z.of_nat (length (delivered (run evs s).2))
  + (packets_skipped (metrics (run evs s).1) - packets_skipped (metrics s))
  /\ packets_skipped (metrics s) <= packets_skipped (metrics (run evs s).1).
Proof.
  revert s. induction evs as [|ev evs IH]; intros s; [simpl; lia|].
  rewrite run_cons. simpl. rewrite delivered_app, length_app.
  destruct (IH (step ev s).1) as [Hn Hk].
  destruct (step_cursor ev s) as [Hn1 Hk1]. lia.
Qed.

(** C2. The delivery cursor [next_expected_reliable] never decreases.
    [receive_reliable] advances it by exactly 1 when it returns a packet
    and leaves it alone when it returns [None]; an iteration of
    [_timeout_checker] advances it by exactly 1 when it skips (the skip
    counter goes up by 1) and leaves it alone otherwise; the packet
    receiver, both handlers and [receive_unreliable] never change it.  Over
    a run the cursor has moved by the number of deliveries plus the number
    of skips. *)
Theorem cursor_advances_by_one_per_delivery_or_skip (s : server) :
  (forall data a arrival now,
     next_expected_reliable (_packet_receiver data a arrival now s).1
     = next_expected_reliable s)
  /\ (forall seqno payload a now r,
        _handle_reliable_channel seqno payload a now s = Some r ->
        next_expected_reliable r.1 = next_expected_reliable s)
  /\ (forall seqno payload,
        next_expected_reliable (_handle_unreliable_channel seqno payload s)
        = next_expected_reliable s)
  /\ next_expected_reliable (receive_unreliable s).1 = next_expected_reliable s
  /\ next_expected_reliable (receive_reliable s).1
     = next_expected_reliable s
       + match (receive_reliable s).2 with Some _ => 1 | None => 0 end
  /\ (forall now,
        let s' := _timeout_checker now s in
        let skips := packets_skipped (metrics s') - packets_skipped (metrics s) in
        next_expected_reliable s' = next_expected_reliable s + skips
        /\ 0 <= skips <= 1)
  /\ (forall evs,
        let s' := (run evs s).1 in
        next_expected_reliable s <= next_expected_reliable s'
        /\ next_expected_reliable s'
           = next_expected_reliable s
             + Z.of_nat (length (delivered (run evs s).2))
             + (packets_skipped (metrics s') - packets_skipped (metrics s))).
Proof.
  repeat split.
  - intros. apply packet_receiver_frame.
  - intros seqno payload a now [s' out] H. simpl. by apply handle_frame in H as [-> _].
  - apply receive_unreliable_frame.
  - apply receive_reliable_cursor.
  - apply timeout_checker_cursor.
  - pose proof (timeout_checker_cursor now s) as [_ H]. simpl in H. lia.
  - pose proof (timeout_checker_cursor now s) as [_ H]. simpl in H. lia.
  - destruct (run_cursor evs s). lia.
  - apply run_cursor.
Qed.

(** C10. Every step of the server (a datagram handled by the packet
    receiver, a delivery by [receive_reliable], a pass of the timeout
    checker, [receive_unreliable]) keeps the key sets of the reorder buffer
    and of the gap-wait map disjoint, and so does a direct call of the
    reliable handler; the delivery path itself never touches the gap-wait
    map. *)
Theorem buffer_and_gap_wait_keys_stay_disjoint (s : server) (evs : list event) :
  disjoint s ->
  disjoint (run evs s).1
  /\ (forall seqno payload a now r,
        _handle_reliable_channel seqno payload a now s = Some r -> disjoint r.1)
  /\ disjoint (receive_reliable s).1
  /\ pending_packets (receive_reliable s).1 = pending_packets s
  /\ (forall now, disjoint (_timeout_checker now s)).
Proof.
  intros Hd. repeat split.
  - by apply run_disjoint.
  - intros seqno payload a now [s' out] H. by eapply handle_disjoint in H.
  - by apply receive_reliable_disjoint.
  - unfold receive_reliable. by destruct (_ !! _).
  - intros now. by apply timeout_checker_disjoint.
Qed.

Lemma init_disjoint start : disjoint (init start).
Proof. unfold disjoint. simpl. rewrite !dom_empty. apply disjoint_empty_l. Qed.

Lemma reachable_disjoint s : reachable s -> disjoint s.
Proof. intros (start & evs & ->). apply run_disjoint, init_disjoint. Qed.

(** C8. At any state the server can reach: when the reorder buffer has an
    entry at the cursor, [receive_reliable] removes that entry, advances
    the cursor by exactly 1, resets [gap_start_time], leaves no entry for
    the delivered sequence number in the gap-wait map, and returns the
    sequence number with the payload; when it has none, the call returns
    [None] and the state is unchanged. *)
Theorem receive_reliable_delivers_at_cursor (s : server) :
  reachable s ->
  match reliable_buffer s !! next_expected_reliable s with
  | Some payload =>
      let s' := (receive_reliable s).1 in
      (receive_reliable s).2 = Some (next_expected_reliable s, payload)
      /\ reliable_buffer s' = delete (next_expected_reliable s) (reliable_buffer s)
      /\ next_expected_reliable s' = next_expected_reliable s + 1
      /\ gap_start_time s' = None
      /\ pending_packets s' !! next_expected_reliable s = None
      /\ unreliable_queue s' = unreliable_queue s
  | None => receive_reliable s = (s, None)
  end.
Proof.
  intros Hr%reachable_disjoint. unfold receive_reliable.
  destruct (_ !! _) as [payload|] eqn:Hb; simpl; [|done].
  repeat split. apply not_elem_of_dom. intros Hp.
  apply (Hr (next_expected_reliable s)); [|done].
  apply elem_of_dom. by eexists.
Qed.

(** *** The wire formats *)

Lemma pack_BQ_ack seqno :
  0 <= seqno < 2 ^ 64 ->
  pack_BQ 255 seqno = Some (byte.of_Z 255 :: le_split 8 seqno).
Proof.
  intros H. unfold pack_BQ. rewrite decide_True by lia. done.
Qed.

Lemma unpack_BQ_ack seqno :
  0 <= seqno < 2 ^ 64 ->
  unpack_BQ (byte.of_Z 255 :: le_split 8 seqno) = Some (255, seqno).
Proof.
  intros H. unfold unpack_BQ.
  rewrite decide_True by (cbn [length]; by rewrite length_le_split).
  change (take 1 (?b :: ?l)) with [b]. change (drop 1 (?b :: ?l)) with l.
  rewrite take_ge by (by rewrite length_le_split).
  rewrite le_combine_split, Z.mod_small by (cbn; lia). done.
Qed.

Lemma le_combine_take_bound (n : nat) (data : bytes) :
  0 <= le_combine (take n data) < 2 ^ (8 * Z.of_nat n).
Proof.
  pose proof (le_combine_bound (take n data)) as H.
  assert (2 ^ (8 * Z.of_nat (length (take n data))) <= 2 ^ (8 * Z.of_nat n)).
  { apply Z.pow_le_mono_r; [lia|]. rewrite length_take. lia. }
  lia.
Qed.

Lemma unpack_BQQ_range data ch seqno ts :
  unpack_BQQ data = Some (ch, seqno, ts) ->
  0 <= ch < 2 ^ 8 /\ 0 <= seqno < 2 ^ 64 /\ 0 <= ts < 2 ^ 64.
Proof.
  unfold unpack_BQQ. case_decide; [|done]. intros [= <- <- <-].
  pose proof (le_combine_take_bound 1 data).
  pose proof (le_combine_take_bound 8 (drop 1 data)).
  pose proof (le_combine_take_bound 8 (drop 9 data)).
  simpl in *. lia.
Qed.

(** *** The jitter estimator never raises on wire timestamps *)

Lemma float_of_int_small z :
  Z.abs z < 2 ^ 1023 ->
  float_of_int z = Some (SF2Prim (binary_normalize prec emax z 0 false)).
Proof. intros H. unfold float_of_int. by rewrite decide_True. Qed.

Lemma calculate_jitter_ok ts arrival m :
  sample_ok m -> 0 <= ts < 2 ^ 64 ->
  exists m', _calculate_jitter ts arrival m = Some m'
    /\ sample_ok m'
    /\ packets_skipped m' = packets_skipped m.
Proof.
  unfold sample_ok, _calculate_jitter. intros Hm Hts.
  assert (2 ^ 64 < 2 ^ 1023) by (apply Z.pow_lt_mono_r; lia).
  destruct (last_arrival m) as [la|].
  - destruct Hm as (t & -> & Ht). simpl.
    rewrite float_of_int_small by lia. simpl.
    eexists. split; [done|]. simpl. eauto.
  - simpl. eexists. split; [done|]. simpl. eauto.
Qed.

Lemma calculate_jitter_sample ts arrival m m' :
  0 <= ts < 2 ^ 64 ->
  _calculate_jitter ts arrival m = Some m' -> sample_ok m'.
Proof.
  unfold _calculate_jitter, sample_ok. intros Hts H.
  destruct (match last_arrival m with Some _ => _ | None => _ end);
    simpl in H; simplify_eq. simpl. eauto.
Qed.

(** A well-formed reliable datagram reaches the reliable handler. *)
Lemma packet_receiver_reliable data a arrival now s seqno ts payload :
  sample_ok (metrics s) ->
  (HEADER_SIZE <= length data)%nat ->
  unpack_BQQ (take HEADER_SIZE data) = Some (0, seqno, ts) ->
  utf8_decode (drop HEADER_SIZE data) = Some payload ->
  exists m r,
    _handle_reliable_channel seqno payload a now (set_metrics m s) = Some r
    /\ _packet_receiver data a arrival now s = r
    /\ sample_ok m
    /\ packets_skipped m = packets_skipped (metrics s).
Proof.
  intros Hm Hlen Hu Hd. unfold _packet_receiver.
  rewrite decide_False by lia. rewrite Hu, Hd. rewrite decide_True by done.
  apply unpack_BQQ_range in Hu as (_ & Hseq & Hts).
  destruct (calculate_jitter_ok ts arrival (count_reliable payload (metrics s)))
    as (m' & Hj & Hm' & Hk); [done..|]. rewrite Hj.
  destruct (_handle_reliable_channel seqno payload a now (set_metrics m' s))
    as [r|] eqn:Hh.
  - by exists m', r.
  - exfalso. unfold _handle_reliable_channel in Hh.
    rewrite pack_BQ_ack in Hh by done. simpl in Hh.
    repeat case_match; done.
Qed.

Lemma packet_receiver_sample data a arrival now s :
  sample_ok (metrics s) ->
  sample_ok (metrics (_packet_receiver data a arrival now s).1).
Proof.
  intros Hm. unfold _packet_receiver.
  case_decide; [done|].
  destruct (unpack_BQQ _) as [[[ch seqno] ts]|] eqn:Hu; [|done].
  destruct (utf8_decode _) as [payload|]; [|done].
  apply unpack_BQQ_range in Hu as (_ & Hseq & Hts).
  case_decide; [|by case_decide].
  destruct (_calculate_jitter _ _ _) as [m'|] eqn:Hj; [|done].
  apply calculate_jitter_sample in Hj; [|done].
  destruct (_handle_reliable_channel _ _ _ _ _) as [[s' out]|] eqn:Hh; [|done].
  apply handle_frame in Hh as (_ & Hh & _). simpl. by rewrite Hh.
Qed.

Lemma step_sample ev s :
  sample_ok (metrics s) -> sample_ok (metrics (step ev s).1).
Proof.
  intros Hm. destruct ev as [data a arrival now| | |now]; simpl.
  - pose proof (packet_receiver_sample data a arrival now s Hm).
    by destruct (_packet_receiver _ _ _ _ _).
  - unfold receive_reliable. by destruct (_ !! _).
  - unfold receive_unreliable. by destruct (unreliable_queue s).
  - unfold _timeout_checker. destruct (_ !! _); [|done].
    by destruct (_ <? _)%float.
Qed.

Lemma run_sample evs s :
  sample_ok (metrics s) -> sample_ok (metrics (run evs s).1).
Proof.
  revert s. induction evs as [|ev evs IH]; intros s Hm; [done|].
  rewrite run_cons. simpl. by apply IH, step_sample.
Qed.

Lemma reachable_sample s : reachable s -> sample_ok (metrics s).
Proof. intros (start & evs & ->). by apply run_sample. Qed.

(** C6. Whatever the state of the server, [_handle_reliable_channel]
    called with a sequence number [seqno] (an unsigned 64-bit number, as
    the header carries it) sends exactly one datagram, to [client_addr]:
    the ack record of sentinel 255 and [seqno].  This holds whether
    [seqno] is behind the cursor, already buffered, or new; and a
    well-formed reliable datagram that the packet receiver reads in any
    state the server can reach is answered by that ack. *)
Theorem reliable_packet_is_always_acked
    (seqno : Z) (payload : str) (client_addr : address) (now : float)
    (s : server) :
  0 <= seqno < 2 ^ 64 ->
  let ack := byte.of_Z 255 :: le_split 8 seqno in
  unpack_BQ ack = Some (255, seqno)
  /\ (exists s', _handle_reliable_channel seqno payload client_addr now s
                 = Some (s', [SendTo ack client_addr]))
  /\ (forall data ts arrival,
        reachable s ->
        (HEADER_SIZE <= length data)%nat ->
        unpack_BQQ (take HEADER_SIZE data) = Some (0, seqno, ts) ->
        utf8_decode (drop HEADER_SIZE data) = Some payload ->
        (_packet_receiver data client_addr arrival now s).2
        = [SendTo ack client_addr]).
Proof.
  intros Hseq ack. split; [by apply unpack_BQ_ack|].
  assert (forall s0, exists s',
            _handle_reliable_channel seqno payload client_addr now s0
            = Some (s', [SendTo ack client_addr])) as Hh.
  { intros s0. unfold _handle_reliable_channel.
    rewrite pack_BQ_ack by done. simpl.
    repeat case_match; eauto. }
  split; [apply Hh|].
  intros data ts arrival Hr%reachable_sample Hlen Hu Hd.
  destruct (packet_receiver_reliable data client_addr arrival now s
              seqno ts payload) as (m & r & Hr' & -> & _); [done..|].
  destruct (Hh (set_metrics m s)) as [s' Hs']. by simplify_eq.
Qed.

(** *** What is delivered lies at or after the cursor *)

Lemma run_cursor_le evs s :
  next_expected_reliable s <= next_expected_reliable (run evs s).1.
Proof. destruct (run_cursor evs s). lia. Qed.

Lemma step_delivered_ge ev s k payload :
  (k, payload) ∈ delivered (step ev s).2 -> k = next_expected_reliable s.
Proof.
  destruct ev as [data a arrival now| | |now]; simpl.
  - destruct (_packet_receiver _ _ _ _ _) as [s' out]. simpl.
    rewrite delivered_socket. by intros ?%elem_of_nil.
  - unfold receive_reliable. destruct (_ !! _); simpl.
    + intros ?%list_elem_of_singleton. by simplify_eq.
    + by intros ?%elem_of_nil.
  - destruct (receive_unreliable s) as [s' [r|]]; simpl;
      by intros ?%elem_of_nil.
  - by intros ?%elem_of_nil.
Qed.

Lemma run_delivered_ge evs s k payload :
  (k, payload) ∈ delivered (run evs s).2 -> next_expected_reliable s <= k.
Proof.
  revert s. induction evs as [|ev evs IH]; intros s.
  - by intros ?%elem_of_nil.
  - rewrite run_cons. simpl. rewrite delivered_app, elem_of_app.
    intros [H|H].
    + apply step_delivered_ge in H. lia.
    + apply IH in H. pose proof (run_cursor_le [ev] s) as Hle.
      rewrite run_cons in Hle. simpl in Hle. lia.
Qed.

(** A reliable datagram whose sequence number is behind the cursor changes
    nothing but the counters and the jitter state. *)
Lemma packet_receiver_stale data a arrival now s seqno ts :
  seqno < next_expected_reliable s ->
  unpack_BQQ (take HEADER_SIZE data) = Some (0, seqno, ts) ->
  let s' := (_packet_receiver data a arrival now s).1 in
  reliable_buffer s' = reliable_buffer s
  /\ pending_packets s' = pending_packets s
  /\ next_expected_reliable s' = next_expected_reliable s.
Proof.
  intros Hlt Hu. unfold _packet_receiver.
  case_decide; [done|]. rewrite Hu.
  destruct (utf8_decode _) as [payload|]; [|done].
  rewrite decide_True by done.
  destruct (_calculate_jitter _ _ _) as [m'|]; [|done].
  destruct (_handle_reliable_channel _ _ _ _ _) as [[s' out]|] eqn:Hh; [|done].
  apply handle_stale in Hh; [|done]. by subst.
Qed.

(** C7. Let the timeout checker skip the sequence number at the cursor
    (its gap-wait entry is older than the threshold).  Then the cursor has
    moved past it, and after any further run of the server: the reliable
    handler called with that sequence number leaves the whole state as it
    is, a reliable datagram carrying it changes neither the reorder buffer
    nor the gap-wait map nor the cursor, and no call of [receive_reliable],
    during the run or after it, returns it. *)
Theorem skipped_sequence_number_is_never_delivered
    (s : server) (now start : float) (evs : list event) :
  pending_packets s !! next_expected_reliable s = Some start ->
  (TIMEOUT_THRESHOLD <? now - start)%float = true ->
  let skipped := next_expected_reliable s in
  let s1 := _timeout_checker now s in
  let s2 := (run evs s1).1 in
  next_expected_reliable s1 = skipped + 1
  /\ packets_skipped (metrics s1) = packets_skipped (metrics s) + 1
  /\ (forall payload a now' r,
        _handle_reliable_channel skipped payload a now' s2 = Some r ->
        r.1 = s2)
  /\ (forall data a arrival now' ts,
        unpack_BQQ (take HEADER_SIZE data) = Some (0, skipped, ts) ->
        let s3 := (_packet_receiver data a arrival now' s2).1 in
        reliable_buffer s3 = reliable_buffer s2
        /\ pending_packets s3 = pending_packets s2
        /\ next_expected_reliable s3 = next_expected_reliable s2)
  /\ (forall payload, (skipped, payload) ∉ delivered (run evs s1).2)
  /\ (forall payload, (receive_reliable s2).2 <> Some (skipped, payload)).
Proof.
  intros Hp Ht skipped s1 s2.
  assert (next_expected_reliable s1 = skipped + 1
          /\ packets_skipped (metrics s1) = packets_skipped (metrics s) + 1)
    as [Hn Hk].
  { subst s1 skipped. unfold _timeout_checker. by rewrite Hp, Ht. }
  assert (skipped < next_expected_reliable s2) as Hlt.
  { pose proof (run_cursor_le evs s1). subst s2. lia. }
  split; [done|]. split; [done|]. repeat split.
  - intros payload a now' [s' out] Hh. simpl. by eapply handle_stale.
  - by eapply packet_receiver_stale.
  - by eapply packet_receiver_stale.
  - by eapply packet_receiver_stale.
  - intros payload Hin%run_delivered_ge. lia.
  - intros payload. unfold receive_reliable.
    destruct (reliable_buffer s2 !! _); simpl; [|done]. intros H.
    injection H as H _. lia.
Qed.

(** *** The jitter estimator *)

Lemma calculate_jitter_first timestamp arrival_time m :
  last_arrival m = None ->
  exists m', _calculate_jitter timestamp arrival_time m = Some m'
    /\ jitter m' = jitter m
    /\ last_arrival m' = Some arrival_time
    /\ last_timestamp m' = Some timestamp.
Proof.
  intros H. unfold _calculate_jitter. rewrite H. simpl. by eexists.
Qed.

Lemma calculate_jitter_next timestamp arrival_time m A_prev T_prev dT :
  last_arrival m = Some A_prev ->
  last_timestamp m = Some T_prev ->
  float_of_int (timestamp - T_prev) = Some dT ->
  exists m', _calculate_jitter timestamp arrival_time m = Some m'
    /\ jitter m'
       = (jitter m
          + (abs ((arrival_time - A_prev) - dT / 1000) - jitter m) / 16)%float
    /\ last_arrival m' = Some arrival_time
    /\ last_timestamp m' = Some timestamp.
Proof.
  intros Ha Ht Hd. unfold _calculate_jitter. rewrite Ha, Ht. simpl.
  rewrite Hd. simpl. by eexists.
Qed.

(** Three arrivals that carry the same remote timestamp. *)
Lemma calculate_jitter_three T A0 A1 A2 m :
  last_arrival m = None ->
  exists m',
    calculate_jitter_all [(T, A0); (T, A1); (T, A2)] m = Some m'
    /\ jitter m'
       = smooth (smooth (jitter m) (A1 - A0 - 0 / 1000)) (A2 - A1 - 0 / 1000).
Proof.
  intros H.
  destruct (calculate_jitter_first T A0 m H) as (m0 & E0 & J0 & La0 & Lt0).
  assert (float_of_int (T - T) = Some 0%float) as Hz.
  { by rewrite Z.sub_diag. }
  destruct (calculate_jitter_next T A1 m0 A0 T 0%float La0 Lt0 Hz)
    as (m1 & E1 & J1 & La1 & Lt1).
  destruct (calculate_jitter_next T A2 m1 A1 T 0%float La1 Lt1 Hz)
    as (m2 & E2 & J2 & _).
  exists m2. simpl. rewrite E0. simpl. rewrite E1. simpl. rewrite E2.
  split; [done|]. by rewrite J2, J1, J0.
Qed.

(** C9.  With a previous sample [(A_prev, T_prev)], [_calculate_jitter]
    takes [D = (A - A_prev) - (T - T_prev) / 1000] (arrival times in
    seconds, timestamps in milliseconds, so [D] is in seconds) and sets the
    smoothed jitter to [J + (|D| - J) / 16]; on the first sample it leaves
    [J] alone; both times it stores [A] and [T] as the previous sample.
    Three arrivals with equal remote timestamps make the estimator apply
    that update, from the [J] it starts with, to the two differences of the
    local arrival times.  For the local arrival times 10 ms, 12 ms and 8 ms
    and [J = 0] at the start these differences are 2 ms and -4 ms, and the
    result is what the update gives for them, first 0.125 ms and then
    0.3671875 ms, to the last bit of the float. *)
Theorem jitter_estimate_follows_arrival_differences
    (timestamp : Z) (arrival_time : float) (m : server_metrics) :
  (forall A_prev T_prev dT,
     last_arrival m = Some A_prev ->
     last_timestamp m = Some T_prev ->
     float_of_int (timestamp - T_prev) = Some dT ->
     exists m', _calculate_jitter timestamp arrival_time m = Some m'
       /\ jitter m'
          = (jitter m
             + (abs ((arrival_time - A_prev) - dT / 1000) - jitter m) / 16)%float
       /\ last_arrival m' = Some arrival_time
       /\ last_timestamp m' = Some timestamp)
  /\ (last_arrival m = None ->
      exists m', _calculate_jitter timestamp arrival_time m = Some m'
        /\ jitter m' = jitter m
        /\ last_arrival m' = Some arrival_time
        /\ last_timestamp m' = Some timestamp)
  /\ (forall A1 A2,
        last_arrival m = None ->
        exists m',
          calculate_jitter_all
            [(timestamp, arrival_time); (timestamp, A1); (timestamp, A2)] m
          = Some m'
          /\ jitter m'
             = smooth (smooth (jitter m) (A1 - arrival_time - 0 / 1000))
                      (A2 - A1 - 0 / 1000))
  /\ (forall start,
        exists m',
          calculate_jitter_all
            [(timestamp, 0.010%float); (timestamp, 0.012%float);
             (timestamp, 0.008%float)] (metrics (init start))
          = Some m'
          /\ jitter m' = smooth (smooth 0 0.002) (-0.004)
          /\ jitter m' = (0 + (abs 0.002 - 0) / 16
                         + (abs (-0.004) - (0 + (abs 0.002 - 0) / 16)) / 16)%float
          /\ jitter m' = 0.0003671875%float
          /\ (jitter m' * 1000)%float = smooth (smooth 0 2) (-4)).
Proof.
  split; [|split; [|split]].
  - intros. by eapply calculate_jitter_next.
  - intros. by apply calculate_jitter_first.
  - intros. by apply calculate_jitter_three.
  - intros start.
    destruct (calculate_jitter_three timestamp 0.010 0.012 0.008
                (metrics (init start))) as (m' & E & J); [done|].
    exists m'. split; [done|]. rewrite J.
    repeat split; vm_compute; reflexivity.
Qed.

(** *** A run in which every packet comes and nothing is skipped *)














End ServerFacts.

(** ** Facts about the client *)

Section ClientFacts.
Import Client.

(** *** The header on the wire *)

Lemma pack_BQQ_length a b c h : pack_BQQ a b c = Some h -> length h = 17%nat.
Proof.
  unfold pack_BQQ. case_decide; [|done]. intros Heq.
  assert (h = le_split 1 a ++ le_split 8 b ++ le_split 8 c) as ->
    by congruence.
  by rewrite !length_app, !length_le_split.
Qed.

Lemma unpack_pack_BQQ a b c h :
  pack_BQQ a b c = Some h -> unpack_BQQ h = Some (a, b, c).
Proof.
  intros Hp. pose proof (pack_BQQ_length _ _ _ _ Hp) as Hl.
  unfold unpack_BQQ. rewrite decide_True by done.
  unfold pack_BQQ in Hp. case_decide as Hr; [|done].
  assert (h = le_split 1 a ++ le_split 8 b ++ le_split 8 c) as ->
    by congruence.
  rewrite take_app_length' by (by rewrite length_le_split).
  rewrite drop_app_length' by (by rewrite length_le_split).
  rewrite take_app_length' by (by rewrite length_le_split).
  rewrite (assoc_L (++)).
  rewrite drop_app_length' by (by rewrite length_app, !length_le_split).
  rewrite take_ge by (by rewrite length_le_split).
  rewrite !le_combine_split.
  rewrite !Z.mod_small by (cbn; lia). done.
Qed.

(** *** Insertion-ordered dictionaries *)

Lemma dict_get_None {V} k (d : dict V) : dict_get k d = None <-> k ∉ d.*1.
Proof.
  induction d as [|[k' v] d IH]; simpl.
  - split; [intros _; apply not_elem_of_nil|done].
  - rewrite not_elem_of_cons. case_decide; [|tauto]. split; [done|tauto].
Qed.

Lemma dict_get_app {V} k (d1 d2 : dict V) :
  dict_get k (d1 ++ d2) =
  match dict_get k d1 with Some v => Some v | None => dict_get k d2 end.
Proof.
  induction d1 as [|[k' v] d1 IH]; simpl; [done|]. by case_decide.
Qed.

Lemma dict_get_set_eq {V} k (v : V) d : dict_get k (dict_set k v d) = Some v.
Proof.
  induction d as [|[k' v'] d IH]; simpl.
  - by rewrite decide_True.
  - case_decide; simpl; [by rewrite decide_True|by rewrite decide_False].
Qed.

Lemma dict_get_set_ne {V} k k' (v : V) d :
  k <> k' -> dict_get k' (dict_set k v d) = dict_get k' d.
Proof.
  intros Hne. induction d as [|[k0 v0] d IH]; simpl.
  - by rewrite decide_False.
  - case_decide; simpl; subst.
    + by rewrite !decide_False.
    + by rewrite IH.
Qed.

Lemma dict_get_del_ne {V} k k' (d : dict V) :
  k <> k' -> dict_get k' (dict_del k d) = dict_get k' d.
Proof.
  intros Hne. induction d as [|[k0 v0] d IH]; simpl; [done|].
  case_decide; simpl; subst.
  - by rewrite decide_False.
  - by rewrite IH.
Qed.

Lemma dict_get_del_eq {V} k (d : dict V) :
  dict_wf d -> dict_get k (dict_del k d) = None.
Proof.
  unfold dict_wf. induction d as [|[k0 v0] d IH]; simpl; [done|].
  intros [Hn Hd]%NoDup_cons. case_decide; simpl; subst.
  - by apply dict_get_None.
  - rewrite decide_False by done. by apply IH.
Qed.

Lemma dict_set_app_at {V} k (v v' : V) d1 d2 :
  k ∉ d1.*1 -> dict_set k v (d1 ++ (k, v') :: d2) = d1 ++ (k, v) :: d2.
Proof.
  induction d1 as [|[k0 v0] d1 IH]; simpl.
  - intros _. by rewrite decide_True.
  - intros [Hne Hn]%not_elem_of_cons. rewrite decide_False by done.
    by rewrite IH.
Qed.

Lemma dict_del_app_at {V} k (v' : V) d1 d2 :
  k ∉ d1.*1 -> dict_del k (d1 ++ (k, v') :: d2) = d1 ++ d2.
Proof.
  induction d1 as [|[k0 v0] d1 IH]; simpl.
  - intros _. by rewrite decide_True.
  - intros [Hne Hn]%not_elem_of_cons. rewrite decide_False by done.
    by rewrite IH.
Qed.

Lemma dict_set_keys {V} k (v : V) d :
  (dict_set k v d).*1
  = match dict_get k d with Some _ => d.*1 | None => d.*1 ++ [k] end.
Proof.
  induction d as [|[k0 v0] d IH]; [done|].
  cbn [dict_set dict_get]. case_decide; subst; [done|].
  rewrite !fmap_cons, IH. by destruct (dict_get k d).
Qed.

Lemma dict_del_keys {V} k (d : dict V) : (dict_del k d).*1 ⊆ d.*1.
Proof.
  induction d as [|[k0 v0] d IH]; [done|].
  cbn [dict_del]. case_decide; rewrite !fmap_cons.
  - intros x Hx. by right.
  - intros x [->|Hx]%elem_of_cons; [left|right; by apply IH].
Qed.

(** The operations keep the keys of a dictionary distinct. *)
Lemma dict_wf_set {V} k (v : V) d : dict_wf d -> dict_wf (dict_set k v d).
Proof.
  unfold dict_wf. intros Hd. rewrite dict_set_keys.
  destruct (dict_get k d) eqn:E; [done|].
  apply NoDup_app. split; [done|]. split; [|apply NoDup_singleton].
  intros x Hx ->%list_elem_of_singleton. by apply dict_get_None in E.
Qed.

Lemma dict_wf_del {V} k (d : dict V) : dict_wf d -> dict_wf (dict_del k d).
Proof.
  unfold dict_wf. induction d as [|[k0 v0] d IH]; [done|].
  cbn [dict_del]. rewrite fmap_cons. intros [Hn Hd]%NoDup_cons.
  case_decide; [done|]. rewrite fmap_cons.
  apply NoDup_cons. split; [|by apply IH].
  intros Hin. by apply Hn, (dict_del_keys k d).
Qed.

(** *** Sending *)

(** What a call of [send_message] that returns has done. *)
Lemma send_message_inv payload isReliable t_stamp t_send c c' out ret :
  send_message payload isReliable t_stamp t_send c = Some (c', out, ret) ->
  exists timestamp_ms header_bytes payload_bytes,
    int_of_float (t_stamp * 1000)%float = Some timestamp_ms
    /\ pack_BQQ (if isReliable then 0 else 1) (seqno c) timestamp_ms
       = Some header_bytes
    /\ utf8_encode payload = Some payload_bytes
    /\ out = [SendTo (header_bytes ++ payload_bytes) (addr c)]
    /\ ret = None
    /\ seqno c' = seqno c + 1
    /\ addr c' = addr c
    /\ pending_packets c' =
       (if isReliable
        then dict_set (seqno c)
               {| packet := header_bytes ++ payload_bytes;
                  send_time := t_send; retries := 0 |} (pending_packets c)
        else pending_packets c)
    /\ Z.of_nat (length (header_bytes ++ payload_bytes)) <= MAX_DATAGRAM.
Proof.
  unfold send_message. intros H.
  destruct (int_of_float _) as [timestamp_ms|] eqn:Hts; simpl in H; [|done].
  destruct (pack_BQQ _ _ _) as [header_bytes|] eqn:Hpack; simpl in H; [|done].
  destruct (utf8_encode _) as [payload_bytes|] eqn:Henc; simpl in H; [|done].
  case_decide as Hlen; [done|].
  injection H as <- <- <-.
  exists timestamp_ms, header_bytes, payload_bytes.
  repeat split; try done. lia.
Qed.

Lemma send_message_wf payload isReliable t_stamp t_send c r :
  dict_wf (pending_packets c) ->
  send_message payload isReliable t_stamp t_send c = Some r ->
  dict_wf (pending_packets r.1.1).
Proof.
  intros Hwf H. destruct r as [[c' out] ret].
  apply send_message_inv in H
    as (ts & hb & pb & _ & _ & _ & _ & _ & _ & _ & H & _).
  simpl. rewrite H. destruct isReliable; [by apply dict_wf_set|done].
Qed.

Lemma ack_listener_wf data now c :
  dict_wf (pending_packets c) ->
  dict_wf (pending_packets (_ack_listener data now c)).
Proof.
  intros Hwf. unfold _ack_listener. repeat case_match; try done.
  simpl. by apply dict_wf_del.
Qed.



(** *** Matching acknowledgments *)

(** C5. For a datagram that starts with a well-formed ack record
    (sentinel 255, acknowledged number [ack_seqno]): when [ack_seqno] is
    tracked, [_ack_listener] appends the round-trip time [now - send_time]
    to the latencies, adds 1 to [packets_acked] and removes the tracked
    entry, leaving the other entries and counters as they are; when it is
    not tracked, the client is left exactly as it is. *)
Theorem ack_listener_matches_tracked_packet
    (data : bytes) (now : float) (c : client) (ack_seqno : Z) :
  dict_wf (pending_packets c) ->
  (ACK_SIZE <= length data)%nat ->
  unpack_BQ (take ACK_SIZE data) = Some (255, ack_seqno) ->
  let c' := _ack_listener data now c in
  match dict_get ack_seqno (pending_packets c) with
  | Some info =>
      latencies (metrics c')
      = latencies (metrics c) ++ [(now - send_time info)%float]
      /\ packets_acked (metrics c') = packets_acked (metrics c) + 1
      /\ pending_packets c' = dict_del ack_seqno (pending_packets c)
      /\ dict_get ack_seqno (pending_packets c') = None
      /\ (forall k, k <> ack_seqno ->
            dict_get k (pending_packets c') = dict_get k (pending_packets c))
      /\ retransmissions (metrics c') = retransmissions (metrics c)
      /\ bytes_sent (metrics c') = bytes_sent (metrics c)
      /\ seqno c' = seqno c
  | None => c' = c
  end.
Proof.
  intros Hwf Hlen Hu c'. subst c'. unfold _ack_listener.
  rewrite decide_True by done. rewrite Hu. rewrite decide_True by done.
  destruct (dict_get ack_seqno (pending_packets c)) as [info|]; [|done].
  simpl. repeat split.
  - by apply dict_get_del_eq.
  - intros k Hk. by apply dict_get_del_ne.
Qed.

(** *** The retransmit pass *)

Lemma dict_get_omap {V} (f : V -> option V) k (d : dict V) :
  dict_wf d ->
  dict_get k (omap (fun item => pair item.1 <$> f item.2) d)
  = dict_get k d ≫= f.
Proof.
  unfold dict_wf. induction d as [|[k0 v0] d IH]; [done|].
  rewrite fmap_cons. intros [Hn Hd]%NoDup_cons. specialize (IH Hd).
  cbn [omap list_omap dict_get fst snd].
  destruct (f v0) as [v'|] eqn:Ef;
    cbn [fmap option_fmap option_map dict_get].
  - case_decide; [subst; simpl; by rewrite Ef|done].
  - case_decide; [|done]. subst. simpl in *. rewrite Ef, IH.
    apply dict_get_None in Hn. by rewrite Hn.
Qed.

Lemma omap_cons_list {A B} (f : A -> option B) x l :
  omap f (x :: l) = option_list (f x) ++ omap f l.
Proof. simpl. by destruct (f x). Qed.

(** One item of the snapshot: [pre] is what the entries already visited
    have become. *)
Lemma retransmit_item_at current pre k info l c out :
  pending_packets c = pre ++ (k, info) :: l ->
  k ∉ pre.*1 ->
  let r := retransmit_item current (c, out) (k, info) in
  pending_packets r.1
  = (pre ++ option_list (pair k <$> entry_after_pass current info)) ++ l
  /\ r.2 = out ++ option_list (resent_in_pass current (addr c) (k, info))
  /\ addr r.1 = addr c
  /\ seqno r.1 = seqno c
  /\ retransmissions (metrics r.1)
     = retransmissions (metrics c)
       + Z.of_nat (length (option_list
                             (resent_in_pass current (addr c) (k, info)))).
Proof.
  intros Hp Hk. unfold retransmit_item, entry_after_pass, resent_in_pass.
  simpl. rewrite Hp.
  destruct (TIMEOUT <? current - send_time info)%float; simpl.
  - destruct (MAX_THRESHOLD <? current - send_time info)%float; simpl.
    + rewrite dict_del_app_at by done. rewrite !app_nil_r.
      repeat split. lia.
    + rewrite dict_set_app_at by done. rewrite <- app_assoc.
      repeat split; reflexivity.
  - rewrite <- app_assoc, app_nil_r. repeat split; [exact Hp|lia].
Qed.

(** The pass, from any point of the snapshot on. *)
Lemma retransmit_fold current l : forall pre c out,
  pending_packets c = pre ++ l ->
  NoDup ((pre ++ l).*1) ->
  let r := foldl (retransmit_item current) (c, out) l in
  pending_packets r.1
  = pre ++ omap (fun item => pair item.1 <$> entry_after_pass current item.2) l
  /\ r.2 = out ++ omap (resent_in_pass current (addr c)) l
  /\ addr r.1 = addr c
  /\ seqno r.1 = seqno c
  /\ retransmissions (metrics r.1)
     = retransmissions (metrics c)
       + Z.of_nat (length (omap (resent_in_pass current (addr c)) l)).
Proof.
  induction l as [|[k info] l IH]; intros pre c out Hp Hnd.
  { simpl. rewrite !app_nil_r in *. repeat split; [done|lia]. }
  assert (k ∉ pre.*1) as Hk.
  { rewrite fmap_app in Hnd. apply NoDup_app in Hnd as (_ & Hnd & _).
    intros Hin. apply (Hnd k Hin). simpl. left. }
  destruct (retransmit_item_at current pre k info l c out Hp Hk)
    as (H1 & H2 & H3 & H4 & H5).
  cbn [foldl].
  destruct (retransmit_item current (c, out) (k, info)) as [c1 out1].
  simpl in H1, H2, H3, H4, H5.
  destruct (IH _ c1 out1 H1) as (I1 & I2 & I3 & I4 & I5).
  { rewrite !fmap_app in *. simpl in Hnd.
    apply NoDup_app in Hnd as (Ha & Hb & [Hc Hd]%NoDup_cons).
    apply NoDup_app. split; [|split; [|done]].
    - apply NoDup_app. split; [done|]. split.
      + intros x Hx Hx'.
        destruct (entry_after_pass current info); simpl in Hx';
          [|by apply elem_of_nil in Hx'].
        apply list_elem_of_singleton in Hx'. by subst.
      + destruct (entry_after_pass current info); simpl;
          [apply NoDup_singleton|apply NoDup_nil_2].
    - intros x [Hx|Hx]%elem_of_app Hx'.
      + apply (Hb x Hx). by right.
      + destruct (entry_after_pass current info); simpl in Hx;
          [|by apply elem_of_nil in Hx].
        apply list_elem_of_singleton in Hx. by subst. }
  cbv zeta in *.
  rewrite I1, I2, I3, I4, I5, H2, H3, H4, H5, !omap_cons_list.
  cbn [fst snd]. rewrite <- !app_assoc, !length_app.
  repeat split; lia.
Qed.

Lemma retransmit_checker_wf current c :
  dict_wf (pending_packets c) ->
  dict_wf (pending_packets (_retransmit_checker current c).1).
Proof.
  intros Hwf.
  destruct (retransmit_fold current (pending_packets c) [] c [])
    as (Hp & _); [done..|].
  fold (_retransmit_checker current c) in Hp. rewrite Hp. simpl.
  clear Hp. unfold dict_wf in *.
  induction (pending_packets c) as [|[k info] d IH]; [done|].
  rewrite fmap_cons in Hwf. apply NoDup_cons in Hwf as [Hn Hd].
  rewrite omap_cons_list, fmap_app. cbn [fst snd].
  apply NoDup_app. split; [|split; [|by apply IH]].
  - destruct (entry_after_pass current info); simpl;
      [apply NoDup_singleton|apply NoDup_nil_2].
  - intros x Hx Hx'. destruct (entry_after_pass current info);
      simpl in Hx; [|by apply elem_of_nil in Hx].
    apply list_elem_of_singleton in Hx. subst x. apply Hn.
    apply list_elem_of_fmap in Hx' as ([k' i'] & -> & Hin).
    apply list_elem_of_omap in Hin as ([k0 i0] & Hin & Heq).
    simpl in Heq. destruct (entry_after_pass current i0); simpl in Heq;
      [|done].
    injection Heq as <- <-. apply list_elem_of_fmap. by exists (k0, i0).
Qed.

Lemma retransmit_pass_entry
    (current : float) (c : client) (k : Z) (info : tracked) :
  dict_wf (pending_packets c) ->
  dict_get k (pending_packets c) = Some info ->
  let c' := (_retransmit_checker current c).1 in
  let out := (_retransmit_checker current c).2 in
  dict_get k (pending_packets c') = entry_after_pass current info
  /\ out = omap (resent_in_pass current (addr c)) (pending_packets c)
  /\ retransmissions (metrics c')
     = retransmissions (metrics c) + Z.of_nat (length out).
Proof.
  intros Hwf Hget c' out.
  destruct (retransmit_fold current (pending_packets c) [] c [])
    as (Hp & Hout & _ & _ & Hr); [done..|].
  fold (_retransmit_checker current c) in Hp, Hout, Hr.
  simpl in Hp, Hout. subst c' out. rewrite Hout, Hr.
  split; [|done]. by rewrite Hp, dict_get_omap, Hget.
Qed.

(** The datagrams of a pass are the packets of the entries that are older
    than 0.1 s and not older than 0.2 s. *)
Lemma resent_in_pass_window (current : float) (a : address)
    (d : dict tracked) :
  omap (resent_in_pass current a) d
  = (fun item => SendTo (packet item.2) a)
    <$> filter (fun item : Z * tracked =>
                  (0.1 <? current - send_time item.2)%float = true
                  /\ (0.2 <? current - send_time item.2)%float = false) d.
Proof.
  induction d as [|item d IH]; [done|].
  rewrite omap_cons_list, filter_cons, IH.
  unfold resent_in_pass, TIMEOUT, MAX_THRESHOLD.
  case_decide as Hd.
  - destruct Hd as [E1 E2]. by rewrite E1, E2.
  - destruct (0.1 <? current - send_time item.2)%float eqn:E1;
      destruct (0.2 <? current - send_time item.2)%float eqn:E2;
      simpl; try done.
    by destruct Hd.
Qed.

(** C4. One pass of [_retransmit_checker] at the clock reading [current],
    for a tracked entry [info] under [k], with
    [elapsed = current - send_time]: when [elapsed] exceeds 0.1 s and
    0.2 s, the entry is gone; when it exceeds 0.1 s but not 0.2 s, the
    entry keeps its bytes, has [current] as send time and one retry more,
    and those bytes were sent again; when it does not exceed 0.1 s, the
    entry is as it was.  The pass sends the bytes of the entries of the
    second kind, once each and in the order of the dictionary, and nothing
    else, so nothing for an entry it drops or leaves; and it counts what it
    sends as retransmissions. *)
Theorem retransmit_pass_drops_resends_or_keeps
    (current : float) (c : client) (k : Z) (info : tracked) :
  dict_wf (pending_packets c) ->
  dict_get k (pending_packets c) = Some info ->
  let elapsed := (current - send_time info)%float in
  let c' := (_retransmit_checker current c).1 in
  let out := (_retransmit_checker current c).2 in
  (if (0.1 <? elapsed)%float then
     if (0.2 <? elapsed)%float then
       dict_get k (pending_packets c') = None
     else
       dict_get k (pending_packets c')
       = Some {| packet := packet info; send_time := current;
                 retries := retries info + 1 |}
       /\ SendTo (packet info) (addr c) ∈ out
   else dict_get k (pending_packets c') = Some info)
  /\ out = (fun item => SendTo (packet item.2) (addr c))
           <$> filter (fun item : Z * tracked =>
                         (0.1 <? current - send_time item.2)%float = true
                         /\ (0.2 <? current - send_time item.2)%float
                            = false)
                      (pending_packets c)
  /\ retransmissions (metrics c')
     = retransmissions (metrics c) + Z.of_nat (length out).
Proof.
  intros Hwf Hget elapsed c' out.
  destruct (retransmit_pass_entry current c k info Hwf Hget)
    as (He & Hout & Hr).
  fold c' in He, Hr. fold out in Hout, Hr.
  rewrite resent_in_pass_window in Hout.
  split; [|done]. rewrite He. unfold entry_after_pass.
  change TIMEOUT with 0.1%float. change MAX_THRESHOLD with 0.2%float.
  fold elapsed.
  destruct (0.1 <? elapsed)%float eqn:E1; [|done].
  destruct (0.2 <? elapsed)%float eqn:E2; [done|].
  split; [done|]. rewrite Hout. apply list_elem_of_fmap.
  exists (k, info). split; [done|]. apply list_elem_of_filter. split.
  - by fold elapsed.
  - clear -Hget. induction (pending_packets c) as [|[k0 v0] d IH];
      simpl in *; [done|].
    case_decide; simplify_eq; [left|right; by apply IH].
Qed.

End ClientFacts.

(** ** From the sends of the client to the deliveries of the server *)

Section EndToEnd.
Import Server.





End EndToEnd.

(** ** The codecs are inverse to each other *)

Section Utf8Strict.

Lemma between_true lo hi b :
  between lo hi b = true <-> lo <= byte.unsigned b <= hi.
Proof. unfold between. apply bool_decide_eq_true. Qed.

Lemma between_false lo hi b :
  between lo hi b = false <-> ~ (lo <= byte.unsigned b <= hi).
Proof. unfold between. apply bool_decide_eq_false. Qed.

Lemma of_Z_eq b z : z = byte.unsigned b -> byte.of_Z z = b.
Proof. intros ->. apply byte.of_Z_unsigned. Qed.

(** One step of the decoder: the code point it reads, the bytes it read
    it from, which are the encoding of that code point, and the rest. *)
Lemma utf8_decode_step b0 r0 s :
  utf8_decode (b0 :: r0) = Some s ->
  exists c bs rest s',
    b0 :: r0 = bs ++ rest
    /\ encode_cp c = Some bs
    /\ utf8_decode rest = Some s'
    /\ s = c :: s'.
Proof.
  cbn [utf8_decode]. pose proof (byte.unsigned_range b0) as R0.
  destruct (between 0 127 b0) eqn:E0.
  { apply between_true in E0.
    destruct (utf8_decode r0) as [s'|] eqn:D; [|done]. simpl.
    intros [= <-]. exists (byte.unsigned b0), [b0], r0, s'.
    split; [done|]. split; [|done].
    unfold encode_cp. rewrite decide_False, decide_True by lia.
    by rewrite byte.of_Z_unsigned. }
  apply between_false in E0.
  destruct r0 as [|b1 r1]; [done|]. pose proof (byte.unsigned_range b1) as R1.
  destruct (between 194 223 b0) eqn:E1.
  { apply between_true in E1.
    destruct (between 128 191 b1) eqn:E2; [|done]. apply between_true in E2.
    destruct (utf8_decode r1) as [s'|] eqn:D; [|done]. simpl.
    intros [= <-]. unfold low6.
    set (c := byte.unsigned b0 mod 32 * 64 + byte.unsigned b1 mod 64).
    exists c, [b0; b1], r1, s'. split; [done|]. split; [|done].
    assert (128 <= c < 2048) by (subst c; Z.div_mod_to_equations; lia).
    unfold encode_cp, cont.
    rewrite !decide_False, decide_True by lia.
    repeat f_equal; apply of_Z_eq; subst c; Z.div_mod_to_equations; lia. }
  apply between_false in E1.
  destruct r1 as [|b2 r2]; [done|]. pose proof (byte.unsigned_range b2) as R2.
  destruct (between 224 239 b0) eqn:E2.
  { apply between_true in E2.
    destruct (between _ _ b1 && between 128 191 b2) eqn:E3; [|done].
    apply andb_true_iff in E3 as [E3 E4].
    apply between_true in E3, E4.
    assert ((byte.unsigned b0 = 224 -> 160 <= byte.unsigned b1)
            /\ (byte.unsigned b0 = 237 -> byte.unsigned b1 <= 159)
            /\ 128 <= byte.unsigned b1 <= 191) as (L1 & L2 & L3).
    { revert E3. unfold between. repeat case_bool_decide; lia. }
    clear E3.
    destruct (utf8_decode r2) as [s'|] eqn:D; [|done]. simpl.
    intros [= <-]. unfold low6.
    set (c := byte.unsigned b0 mod 16 * 4096 + byte.unsigned b1 mod 64 * 64
              + byte.unsigned b2 mod 64).
    exists c, [b0; b1; b2], r2, s'. split; [done|]. split; [|done].
    assert (2048 <= c < 65536 /\ ~ (55296 <= c < 57344))
      by (subst c; Z.div_mod_to_equations; lia).
    unfold encode_cp, cont.
    rewrite !decide_False, decide_True, decide_False by lia.
    repeat f_equal; apply of_Z_eq; subst c; Z.div_mod_to_equations; lia. }
  apply between_false in E2.
  destruct r2 as [|b3 r3]; [done|]. pose proof (byte.unsigned_range b3) as R3.
  destruct (between 240 244 b0) eqn:E3; [|done].
  apply between_true in E3.
  destruct (between _ _ b1 && between 128 191 b2 && between 128 191 b3)
    eqn:E4; [|done].
  apply andb_true_iff in E4 as [E4 E6].
  apply andb_true_iff in E4 as [E4 E5].
  apply between_true in E4, E5, E6.
  assert ((byte.unsigned b0 = 240 -> 144 <= byte.unsigned b1)
          /\ (byte.unsigned b0 = 244 -> byte.unsigned b1 <= 143)
          /\ 128 <= byte.unsigned b1 <= 191) as (L1 & L2 & L3).
  { revert E4. unfold between. repeat case_bool_decide; lia. }
  clear E4.
  destruct (utf8_decode r3) as [s'|] eqn:D; [|done]. simpl.
  intros [= <-]. unfold low6.
  set (c := byte.unsigned b0 mod 8 * 262144 + byte.unsigned b1 mod 64 * 4096
            + byte.unsigned b2 mod 64 * 64 + byte.unsigned b3 mod 64).
  exists c, [b0; b1; b2; b3], r3, s'. split; [done|]. split; [|done].
  assert (65536 <= c < 1114112) by (subst c; Z.div_mod_to_equations; lia).
  unfold encode_cp, cont.
  rewrite !decide_False, decide_True by lia.
  repeat f_equal; apply of_Z_eq; subst c; Z.div_mod_to_equations; lia.
Qed.

Lemma encode_cp_nonempty c bs : encode_cp c = Some bs -> (0 < length bs)%nat.
Proof.
  unfold encode_cp. repeat case_decide; intros; simplify_eq; simpl; lia.
Qed.

Lemma encode_decode_upto (n : nat) : forall bs s,
  (length bs <= n)%nat ->
  utf8_decode bs = Some s -> utf8_encode s = Some bs.
Proof.
  induction n as [|n IH]; intros bs s Hlen H.
  { destruct bs; [|simpl in Hlen; lia]. by injection H as <-. }
  destruct bs as [|b0 r0]; [by injection H as <-|].
  apply utf8_decode_step in H as (c & b & rest & s' & Heq & Hc & Hd & ->).
  pose proof (encode_cp_nonempty _ _ Hc) as Hb.
  assert (length rest <= n)%nat as Hr.
  { apply (f_equal length) in Heq. rewrite length_app in Heq.
    simpl in Heq, Hlen. lia. }
  rewrite Heq. cbn [utf8_encode]. rewrite Hc. simpl.
  by rewrite (IH rest s' Hr Hd).
Qed.

(** X1. The two UTF-8 codecs are inverse to each other: the bytes [bs]
    decode to the string [s], as [_packet_receiver] decodes a payload,
    exactly when [s] encodes to [bs], as [send_message] encodes it.  So the
    decoder accepts nothing but what the encoder writes (no overlong form,
    no surrogate, no truncated sequence), and no two byte strings decode to
    the same string. *)
Theorem utf8_decode_inverts_utf8_encode (bs : bytes) (s : str) :
  utf8_decode bs = Some s <-> utf8_encode s = Some bs.
Proof.
  split.
  - apply (encode_decode_upto (length bs)). done.
  - apply decode_encode.
Qed.

End Utf8Strict.

Section Struct.

Lemma split_combine_take (n : nat) (data : bytes) :
  (n <= length data)%nat ->
  le_split n (le_combine (take n data)) = take n data.
Proof.
  intros H. rewrite <- (split_le_combine (take n data)) at 2.
  by rewrite length_take, Nat.min_l.
Qed.

Lemma pack_unpack_BQQ data a b c :
  unpack_BQQ data = Some (a, b, c) -> pack_BQQ a b c = Some data.
Proof.
  intros H. pose proof (unpack_BQQ_range _ _ _ _ H) as Hr.
  unfold unpack_BQQ in H. case_decide as Hl; [|done].
  injection H as <- <- <-.
  unfold pack_BQQ. rewrite decide_True by done. f_equal.
  rewrite !split_combine_take by (rewrite ?length_drop; lia).
  symmetry. etransitivity; [symmetry; apply (take_drop 1)|]. f_equal.
  etransitivity; [symmetry; apply (take_drop 8)|]. f_equal.
  rewrite drop_drop. symmetry. apply take_ge. rewrite length_drop. lia.
Qed.

Lemma unpack_BQ_range data ch seqno :
  unpack_BQ data = Some (ch, seqno) ->
  0 <= ch < 2 ^ 8 /\ 0 <= seqno < 2 ^ 64.
Proof.
  unfold unpack_BQ. case_decide; [|done]. intros [= <- <-].
  pose proof (le_combine_take_bound 1 data).
  pose proof (le_combine_take_bound 8 (drop 1 data)).
  simpl in *. lia.
Qed.

Lemma pack_unpack_BQ data a b :
  unpack_BQ data = Some (a, b) -> pack_BQ a b = Some data.
Proof.
  intros H. pose proof (unpack_BQ_range _ _ _ H) as Hr.
  unfold unpack_BQ in H. case_decide as Hl; [|done].
  injection H as <- <-.
  unfold pack_BQ. rewrite decide_True by done. f_equal.
  rewrite !split_combine_take by (rewrite ?length_drop; lia).
  symmetry. etransitivity; [symmetry; apply (take_drop 1)|]. f_equal.
  symmetry. apply take_ge. rewrite length_drop. lia.
Qed.

Lemma unpack_pack_BQ a b h :
  pack_BQ a b = Some h -> unpack_BQ h = Some (a, b).
Proof.
  unfold pack_BQ. case_decide as Hr; [|done]. intros Hp.
  assert (h = le_split 1 a ++ le_split 8 b) as -> by congruence.
  unfold unpack_BQ.
  rewrite decide_True by (by rewrite length_app, !length_le_split).
  rewrite take_app_length' by (by rewrite length_le_split).
  rewrite drop_app_length' by (by rewrite length_le_split).
  rewrite take_ge by (by rewrite length_le_split).
  rewrite !le_combine_split.
  rewrite !Z.mod_small by (cbn; lia). done.
Qed.

(** X2. The two wire formats: [struct.unpack] reads the bytes [data] as
    the fields of a header ('<BQQ') or of an ack ('<BQ') exactly when
    [struct.pack] writes these fields as [data].  In particular what is
    unpacked is within the ranges that pack accepts, and pack loses
    nothing. *)
Theorem struct_formats_round_trip :
  (forall data a b c,
     unpack_BQQ data = Some (a, b, c) <-> pack_BQQ a b c = Some data)
  /\ (forall data a b,
        unpack_BQ data = Some (a, b) <-> pack_BQ a b = Some data).
Proof.
  split; intros; split.
  - apply pack_unpack_BQQ.
  - apply unpack_pack_BQQ.
  - apply pack_unpack_BQ.
  - apply unpack_pack_BQ.
Qed.

End Struct.

(** ** More facts about the server *)

Section UnreliableQueue.
Import Server.

Lemma packet_receiver_read data a arrival now s :
  _packet_receiver data a arrival now s =
  match read_datagram data with
  | None => (s, [])
  | Some (channel_type, seqno, timestamp, payload) =>
      if decide (channel_type = 0) then
        let m := count_reliable payload (metrics s) in
        match _calculate_jitter timestamp arrival m with
        | None => (set_metrics m s, [])
        | Some m' =>
            match _handle_reliable_channel seqno payload a now
                    (set_metrics m' s) with
            | None => (set_metrics m' s, [])
            | Some r => r
            end
        end
      else if decide (channel_type = 1) then
        (_handle_unreliable_channel seqno payload s, [])
      else (s, [])
  end.
Proof.
  unfold _packet_receiver, read_datagram. case_decide; [done|].
  destruct (unpack_BQQ _) as [[[ch seqno] ts]|]; [|done]. simpl.
  by destruct (utf8_decode _).
Qed.

Lemma unreliable_delivered_socket (out : list effect) :
  unreliable_delivered (Socket <$> out) = [].
Proof. by induction out. Qed.

Lemma step_unreliable_fifo ev s :
  unreliable_delivered (step ev s).2 ++ unreliable_queue (step ev s).1
  = unreliable_queue s ++ unreliable_read [ev].
Proof.
  destruct ev as [data a arrival now| | |now]; simpl.
  - rewrite packet_receiver_read.
    destruct (read_datagram data) as [[[[ch seqno] ts] payload]|];
      [|simpl; by rewrite app_nil_r].
    destruct (decide (ch = 0)) as [->|H0].
    + rewrite decide_False by done. rewrite app_nil_r. cbv zeta.
      destruct (_calculate_jitter _ _ _) as [m'|]; [|done].
      destruct (_handle_reliable_channel _ _ _ _ _) as [[s' out]|] eqn:Hh;
        [|done].
      apply handle_frame in Hh as (_ & _ & Hq & _).
      cbn [fst snd]. by rewrite unreliable_delivered_socket, Hq.
    + destruct (decide (ch = 1)) as [->|H1]; simpl; [done|].
      by rewrite app_nil_r.
  - unfold receive_reliable. destruct (_ !! _); simpl; by rewrite app_nil_r.
  - unfold receive_unreliable.
    destruct (unreliable_queue s) as [|p q] eqn:E; simpl;
      rewrite ?E, ?app_nil_r; done.
  - rewrite app_nil_r. unfold _timeout_checker.
    destruct (_ !! _); [|done]. by destruct (_ <? _)%float.
Qed.

Lemma unreliable_delivered_app o1 o2 :
  unreliable_delivered (o1 ++ o2)
  = unreliable_delivered o1 ++ unreliable_delivered o2.
Proof. apply omap_app. Qed.

Lemma unreliable_read_cons ev evs :
  unreliable_read (ev :: evs) = unreliable_read [ev] ++ unreliable_read evs.
Proof. apply (omap_app _ [ev] evs). Qed.

(** X3. The unreliable channel is a queue.  After any run from any state,
    what [receive_unreliable] has returned during the run, followed by what
    is still queued, is what was queued at the start followed by the
    unreliable packets read during the run, in the order of their arrival:
    nothing is lost, duplicated, reordered or filtered by sequence
    number. *)
Theorem unreliable_channel_is_fifo (evs : list event) (s : server) :
  unreliable_delivered (run evs s).2 ++ unreliable_queue (run evs s).1
  = unreliable_queue s ++ unreliable_read evs.
Proof.
  revert s. induction evs as [|ev evs IH]; intros s.
  { simpl. by rewrite app_nil_r. }
  rewrite run_cons. cbn [fst snd].
  rewrite unreliable_delivered_app, <- app_assoc, IH, app_assoc.
  rewrite step_unreliable_fifo, <- app_assoc.
  by rewrite <- unreliable_read_cons.
Qed.
End UnreliableQueue.

Section ReorderBuffer.
Import Server.

Lemma fold_mark_gap_lookup_Some buffer t l : forall pending k x,
  pending !! k = Some x ->
  foldl (mark_gap buffer t) pending l !! k = Some x.
Proof.
  induction l as [|i l IH]; intros pending k x H; [done|].
  simpl. apply IH. unfold mark_gap.
  destruct (contains pending i || contains buffer i) eqn:E; [done|].
  apply orb_false_iff in E as [E _]. apply contains_lookup in E.
  rewrite lookup_insert_ne; [done|]. intros ->. congruence.
Qed.

Lemma fold_mark_gap_lookup_inv buffer t l : forall pending k x,
  foldl (mark_gap buffer t) pending l !! k = Some x ->
  pending !! k = Some x \/ (x = t /\ k ∈ l /\ buffer !! k = None).
Proof.
  induction l as [|i l IH]; intros pending k x H; [by left|].
  simpl in H. apply IH in H as [H|(-> & Hk & Hb)].
  - unfold mark_gap in H.
    destruct (contains pending i || contains buffer i) eqn:E; [by left|].
    apply orb_false_iff in E as [_ E]. apply contains_lookup in E.
    rewrite lookup_insert in H. case_decide; [|by left].
    subst. injection H as <-. right. split; [done|]. split; [left|done].
  - right. split; [done|]. split; [by right|done].
Qed.

(** X4. What [_handle_reliable_channel] does to the reorder buffer and to
    the gap-wait map, when it returns.  A buffered payload stays as it is,
    also under a second arrival of its sequence number with another
    payload; entries of other sequence numbers are not touched; a gap wait
    of another sequence number keeps its start time, so later arrivals do
    not restart the clock of a gap; a gap wait is new only for an
    unbuffered number between the cursor and [seqno], and starts [now]; and
    a [seqno] at or after the cursor is buffered afterwards, with the first
    payload that came for it, and, if it was not buffered before, it is not
    awaited. *)
Theorem reliable_handler_never_overwrites
    (seqno : Z) (payload : str) (a : address) (now : float)
    (s s' : server) (out : list effect) :
  _handle_reliable_channel seqno payload a now s = Some (s', out) ->
  (forall k p, reliable_buffer s !! k = Some p ->
               reliable_buffer s' !! k = Some p)
  /\ (forall k, k <> seqno ->
                reliable_buffer s' !! k = reliable_buffer s !! k)
  /\ (forall k t, k <> seqno -> pending_packets s !! k = Some t ->
                  pending_packets s' !! k = Some t)
  /\ (forall k t, pending_packets s' !! k = Some t ->
        pending_packets s !! k = Some t
        \/ (t = now /\ next_expected_reliable s <= k < seqno
            /\ reliable_buffer s !! k = None))
  /\ (next_expected_reliable s <= seqno ->
      reliable_buffer s' !! seqno
      = Some (default payload (reliable_buffer s !! seqno))
      /\ (reliable_buffer s !! seqno = None ->
          pending_packets s' !! seqno = None)).
Proof.
  unfold _handle_reliable_channel. intros H.
  destruct (pack_BQ 255 seqno); simpl in H; [|done].
  destruct (decide (seqno < next_expected_reliable s)) as [Hlt|Hge].
  { injection H as <- <-. repeat split; intros; try done; [by left|lia|lia]. }
  destruct (contains (reliable_buffer s) seqno) eqn:Hc.
  { injection H as <- <-. apply contains_dom, elem_of_dom in Hc as [p Hp].
    repeat split; intros; try done; [by left|by rewrite Hp|congruence]. }
  apply contains_lookup in Hc. injection H as <- <-. simpl.
  split; [|split; [|split; [|split]]].
  - intros k p Hk. rewrite lookup_insert_ne; [done|]. intros ->. congruence.
  - intros k Hk. by rewrite lookup_insert_ne.
  - intros k t Hk Hp.
    assert (delete seqno (pending_packets s) !! k = Some t)
      by (by rewrite lookup_delete_ne).
    case_decide; [by apply fold_mark_gap_lookup_Some|done].
  - intros k t Hp.
    assert (delete seqno (pending_packets s) !! k = Some t
            \/ (t = now /\ next_expected_reliable s <= k < seqno
                /\ reliable_buffer s !! k = None)) as [Hd|Hd].
    { case_decide; [|by left].
      apply fold_mark_gap_lookup_inv in Hp as [Hp|(-> & Hk & Hb)];
        [by left|right].
      apply elem_of_seqZ in Hk. split; [done|]. split; [lia|].
      rewrite lookup_insert_ne in Hb; [done|lia]. }
    + left. rewrite lookup_delete in Hd. by case_decide.
    + by right.
  - intros _. rewrite Hc. simpl. split; [by rewrite lookup_insert_eq|].
    intros _. case_decide.
    + destruct (foldl _ _ _ !! seqno) as [t|] eqn:E; [|done].
      apply fold_mark_gap_lookup_inv in E as [E|(_ & _ & E)].
      * by rewrite lookup_delete_eq in E.
      * by rewrite lookup_insert_eq in E.
    + by rewrite lookup_delete_eq.
Qed.

End ReorderBuffer.

Section Window.
Import Server.

(** X5. A datagram that [_packet_receiver] does not read as a reliable
    packet (too short, a payload that is no UTF-8, or a channel type other
    than 0) is answered by nothing and leaves the reorder buffer, the
    gap-wait map, the cursor and all metrics as they are; in particular an
    unreliable packet is neither acknowledged nor counted.  If it is no
    unreliable packet either, the whole state is unchanged. *)
Theorem other_datagrams_leave_reliable_channel
    (data : bytes) (a : address) (arrival now : float) (s : server) :
  (forall seqno timestamp payload,
     read_datagram data <> Some (0, seqno, timestamp, payload)) ->
  let s' := (_packet_receiver data a arrival now s).1 in
  (_packet_receiver data a arrival now s).2 = []
  /\ reliable_buffer s' = reliable_buffer s
  /\ pending_packets s' = pending_packets s
  /\ next_expected_reliable s' = next_expected_reliable s
  /\ gap_start_time s' = gap_start_time s
  /\ metrics s' = metrics s
  /\ ((forall seqno timestamp payload,
         read_datagram data <> Some (1, seqno, timestamp, payload)) ->
      s' = s).
Proof.
  intros H. cbv zeta. rewrite packet_receiver_read.
  destruct (read_datagram data) as [[[[ch seqno] ts] payload]|]; [|done].
  destruct (decide (ch = 0)) as [->|H0]; [by destruct (H seqno ts payload)|].
  destruct (decide (ch = 1)) as [->|H1]; simpl; [|done].
  repeat split; try done. intros H1. by destruct (H1 seqno ts payload).
Qed.

Lemma read_datagram_short data :
  (length data < HEADER_SIZE)%nat -> read_datagram data = None.
Proof. intros H. unfold read_datagram. by rewrite decide_True. Qed.

Lemma window_handle seqno payload a now s s' out :
  window_ok s ->
  _handle_reliable_channel seqno payload a now s = Some (s', out) ->
  window_ok s'.
Proof.
  intros (Hb & Hp & Hw) H.
  pose proof (handle_frame _ _ _ _ _ _ _ H) as (Hn & _).
  unfold _handle_reliable_channel in H.
  destruct (pack_BQ 255 seqno); simpl in H; [|done].
  destruct (decide (seqno < _)) as [|Hge]; [by simplify_eq|].
  destruct (contains _ seqno) eqn:Hc; [by simplify_eq|].
  injection H as <- <-. unfold window_ok. simpl.
  set (n := next_expected_reliable s) in *.
  set (buffer := <[seqno:=payload]> (reliable_buffer s)).
  assert (forall k, k ∈ dom (delete seqno (pending_packets s)) ->
                    n <= k) as Hp'.
  { intros k Hk. apply Hp. rewrite dom_delete in Hk.
    by apply elem_of_difference in Hk as [Hk _]. }
  split; [|split].
  - intros k Hk. unfold buffer in Hk. rewrite dom_insert in Hk.
    apply elem_of_union in Hk as [Hk|Hk]; [|by apply Hb].
    apply elem_of_singleton in Hk. lia.
  - intros k Hk. case_decide; [|by apply Hp'].
    apply elem_of_dom in Hk as [t Hk].
    apply fold_mark_gap_lookup_inv in Hk as [Hk|(_ & Hk & _)].
    + apply Hp'. by apply elem_of_dom.
    + apply elem_of_seqZ in Hk. lia.
  - intros k i Hk Hi.
    destruct (decide (i = seqno)) as [->|Hne].
    { left. unfold buffer. rewrite dom_insert.
      apply elem_of_union. left. by apply elem_of_singleton. }
    assert (i ∈ dom (reliable_buffer s) \/ i ∈ dom (pending_packets s)
            \/ ((n <= i < seqno) /\ (i ∉ dom (reliable_buffer s))
                /\ (i ∉ dom (pending_packets s)))) as Hcase.
    { destruct (decide (i ∈ dom (reliable_buffer s))); [by left|].
      destruct (decide (i ∈ dom (pending_packets s))); [by (right; left)|].
      right; right. split; [|done].
      unfold buffer in Hk. rewrite dom_insert in Hk.
      apply elem_of_union in Hk as [Hk|Hk].
      - apply elem_of_singleton in Hk. lia.
      - destruct (Hw k i Hk Hi); done. }
    destruct Hcase as [Hi'|[Hi'|(Hr & Hnb & Hnp)]].
    + left. unfold buffer. rewrite dom_insert.
      apply elem_of_union. by right.
    + right. apply elem_of_dom in Hi' as [t Ht].
      assert (delete seqno (pending_packets s) !! i = Some t)
        by (by rewrite lookup_delete_ne).
      apply elem_of_dom. exists t.
      case_decide; [by apply fold_mark_gap_lookup_Some|done].
    + right. rewrite decide_True by lia.
      apply fold_mark_gap_dom. right. split.
      * apply elem_of_seqZ. lia.
      * unfold buffer. rewrite dom_insert. intros Hx.
        apply elem_of_union in Hx as [Hx|Hx]; [|done].
        by apply elem_of_singleton in Hx.
Qed.

Lemma window_step ev s :
  disjoint s -> window_ok s -> window_ok (step ev s).1.
Proof.
  intros Hd Hw. destruct ev as [data a arrival now| | |now]; simpl.
  - destruct (packet_receiver_case data a arrival now s)
      as [|m Hm|m seqno payload [s' out] Hm Hh|]; simpl; try done.
    by eapply (window_handle _ _ _ _ (set_metrics m s)).
  - destruct Hw as (Hb & Hp & Hw). unfold receive_reliable.
    destruct (reliable_buffer s !! next_expected_reliable s) eqn:E;
      simpl; [|done].
    assert (next_expected_reliable s ∈ dom (reliable_buffer s)) as Hx
      by (apply elem_of_dom; by eexists).
    assert (next_expected_reliable s ∉ dom (pending_packets s)) as Hn.
    { intros Hn. apply (proj1 (elem_of_disjoint _ _) Hd _ Hx Hn). }
    split; [|split]; simpl.
    + intros k Hk. rewrite dom_delete in Hk.
      apply elem_of_difference in Hk as [Hk Hne].
      apply Hb in Hk. rewrite elem_of_singleton in Hne. lia.
    + intros k Hk. pose proof (Hp k Hk).
      assert (k <> next_expected_reliable s) by (by intros ->). lia.
    + intros k i Hk Hi. rewrite dom_delete in Hk.
      apply elem_of_difference in Hk as [Hk _].
      destruct (Hw k i Hk) as [H|H]; [lia| |by right].
      left. rewrite dom_delete. apply elem_of_difference. split; [done|].
      rewrite elem_of_singleton. lia.
  - unfold receive_unreliable. by destruct (unreliable_queue s).
  - destruct Hw as (Hb & Hp & Hw). unfold _timeout_checker.
    destruct (pending_packets s !! next_expected_reliable s) eqn:E;
      [|done].
    destruct (_ <? _)%float; [|done].
    assert (next_expected_reliable s ∈ dom (pending_packets s)) as Hx
      by (apply elem_of_dom; by eexists).
    assert (next_expected_reliable s ∉ dom (reliable_buffer s)) as Hn.
    { intros Hn. apply (proj1 (elem_of_disjoint _ _) Hd _ Hn Hx). }
    split; [|split]; simpl.
    + intros k Hk. pose proof (Hb k Hk).
      assert (k <> next_expected_reliable s) by (by intros ->). lia.
    + intros k Hk. rewrite dom_delete in Hk.
      apply elem_of_difference in Hk as [Hk Hne].
      apply Hp in Hk. rewrite elem_of_singleton in Hne. lia.
    + intros k i Hk Hi.
      destruct (Hw k i Hk) as [H|H]; [lia|by left|].
      right. rewrite dom_delete. apply elem_of_difference. split; [done|].
      rewrite elem_of_singleton. lia.
Qed.

Lemma window_run evs s :
  disjoint s -> window_ok s -> window_ok (run evs s).1.
Proof.
  revert s. induction evs as [|ev evs IH]; intros s Hd Hw; [done|].
  rewrite run_cons. simpl. apply IH; [by apply step_disjoint|].
  by apply window_step.
Qed.

Lemma window_init start : window_ok (init start).
Proof.
  unfold window_ok. simpl.
  repeat split; intros k; intros; exfalso;
    by apply (not_elem_of_empty (C:=gset Z) k); rewrite <- ?dom_empty.
Qed.

(** X6. In every state the server can reach, nothing is buffered or
    awaited below the cursor, and every sequence number between the cursor
    and a buffered packet is itself buffered or awaited.  So whenever the
    reorder buffer is not empty, the cursor is at a buffered packet, which
    [receive_reliable] can return, or at a gap wait, which the timeout
    checker can end: the cursor never stands at a number that nothing will
    move it past. *)
Theorem buffered_packets_are_reached_by_the_cursor (s : server) :
  reachable s ->
  window_ok s
  /\ (reliable_buffer s <> ∅ ->
      is_Some (reliable_buffer s !! next_expected_reliable s)
      \/ is_Some (pending_packets s !! next_expected_reliable s)).
Proof.
  intros (start & evs & ->).
  assert (window_ok (run evs (init start)).1) as Hw
    by (apply window_run; [apply init_disjoint|apply window_init]).
  split; [done|]. intros Hne.
  destruct Hw as (Hb & Hp & Hw).
  apply map_choose in Hne as (k & p & Hk).
  assert (k ∈ dom (reliable_buffer (run evs (init start)).1)) as Hk'
    by (apply elem_of_dom; by eexists).
  pose proof (Hb k Hk') as Hle.
  destruct (decide (k = next_expected_reliable (run evs (init start)).1))
    as [->|Hn]; [left; by eexists|].
  destruct (Hw k (next_expected_reliable (run evs (init start)).1) Hk')
    as [H|H]; [lia|left|right]; by apply elem_of_dom.
Qed.

End Window.

Section Counters.
Import Server.

Lemma calculate_jitter_counters ts a m m' :
  _calculate_jitter ts a m = Some m' ->
  packets_received_reliable m' = packets_received_reliable m
  /\ packets_received_unreliable m' = packets_received_unreliable m
  /\ packets_delivered_reliable m' = packets_delivered_reliable m
  /\ packets_delivered_unreliable m' = packets_delivered_unreliable m
  /\ packets_skipped m' = packets_skipped m
  /\ bytes_received m' = bytes_received m.
Proof.
  unfold _calculate_jitter. intros H.
  destruct (match last_arrival m with Some _ => _ | None => _ end);
    simpl in H; by simplify_eq.
Qed.

Lemma handle_size seqno payload a now s s' out :
  _handle_reliable_channel seqno payload a now s = Some (s', out) ->
  (size (reliable_buffer s') <= S (size (reliable_buffer s)))%nat.
Proof.
  unfold _handle_reliable_channel. intros H.
  destruct (pack_BQ 255 seqno); simpl in H; [|done].
  destruct (decide (seqno < _)); [simplify_eq; lia|].
  destruct (contains _ seqno) eqn:Hc; [simplify_eq; lia|].
  apply contains_lookup in Hc. simplify_eq. simpl.
  by rewrite map_size_insert_None.
Qed.

Lemma counters_step ev s : counters_ok s -> counters_ok (step ev s).1.
Proof.
  unfold counters_ok. cbv zeta. intros (Hn & Hd & Hk & Hr & Hb & Hu1 & Hu2).
  destruct ev as [data a arrival now| | |now]; simpl.
  - rewrite packet_receiver_read.
    destruct (read_datagram data) as [[[[ch seqno] ts] payload]|]; [|done].
    destruct (decide (ch = 0)) as [->|H0].
    + cbv zeta.
      destruct (_calculate_jitter _ _ _) as [m'|] eqn:Hj; simpl.
      * apply calculate_jitter_counters in Hj
          as (E1 & E2 & E3 & E4 & E5 & E6). simpl in *.
        destruct (_handle_reliable_channel _ _ _ _ _) as [[s' out]|] eqn:Hh;
          simpl.
        -- pose proof (handle_size _ _ _ _ _ _ _ Hh) as Hs.
           apply handle_frame in Hh as (-> & -> & _). simpl in *.
           rewrite E1, E2, E3, E4, E5, E6. repeat split; lia.
        -- rewrite E1, E2, E3, E4, E5, E6. repeat split; lia.
      * repeat split; lia.
    + destruct (decide (ch = 1)); simpl; done.
  - unfold receive_reliable.
    destruct (reliable_buffer s !! next_expected_reliable s) eqn:E;
      simpl; [|done].
    pose proof (map_size_delete (next_expected_reliable s)
                  (reliable_buffer s)) as Hs.
    rewrite E in Hs. simpl in Hs.
    assert (size (reliable_buffer s) <> 0%nat).
    { intros H0. apply map_size_empty_iff in H0. rewrite H0 in E.
      by rewrite lookup_empty in E. }
    repeat split; lia.
  - unfold receive_unreliable. by destruct (unreliable_queue s).
  - unfold _timeout_checker.
    destruct (pending_packets s !! next_expected_reliable s); [|done].
    destruct (_ <? _)%float; simpl; [|done].
    repeat split; lia.
Qed.

Lemma counters_run evs s : counters_ok s -> counters_ok (run evs s).1.
Proof.
  revert s. induction evs as [|ev evs IH]; intros s H; [done|].
  rewrite run_cons. simpl. by apply IH, counters_step.
Qed.

(** X7. In every state the server can reach, the cursor is the number
    of packets delivered plus the number skipped; the packets delivered and
    the packets still buffered are at most the reliable packets counted as
    received; and the two counters of the unreliable channel,
    [packets_received['unreliable']] and [packets_delivered['unreliable']],
    are still 0, since no method writes them. *)
Theorem counters_account_for_the_cursor (s : server) :
  reachable s -> counters_ok s.
Proof.
  intros (start & evs & ->). apply counters_run.
  unfold counters_ok. simpl. rewrite map_size_empty. repeat split; lia.
Qed.

End Counters.

Section Progress.
Import Server.

Lemma timeout_checker_skips now s t :
  pending_packets s !! next_expected_reliable s = Some t ->
  (TIMEOUT_THRESHOLD <? now - t)%float = true ->
  let s' := _timeout_checker now s in
  next_expected_reliable s' = next_expected_reliable s + 1
  /\ reliable_buffer s' = reliable_buffer s
  /\ pending_packets s'
     = delete (next_expected_reliable s) (pending_packets s)
  /\ packets_skipped (metrics s') = packets_skipped (metrics s) + 1.
Proof.
  intros Hp Ht. unfold _timeout_checker. rewrite Hp. cbv zeta.
  by rewrite Ht.
Qed.

Lemma skips_reach_buffered now k (m : nat) : forall s,
  window_ok s -> disjoint s ->
  is_Some (reliable_buffer s !! k) ->
  Z.to_nat (k - next_expected_reliable s) = m ->
  map_Forall (fun _ t => (TIMEOUT_THRESHOLD <? now - t)%float = true)
    (pending_packets s) ->
  exists n : nat,
    Z.of_nat n <= k - next_expected_reliable s
    /\ let s' := (run (replicate n (Timeout now)) s).1 in
       is_Some (reliable_buffer s' !! next_expected_reliable s')
       /\ reliable_buffer s' = reliable_buffer s
       /\ next_expected_reliable s' = next_expected_reliable s + Z.of_nat n
       /\ packets_skipped (metrics s')
          = packets_skipped (metrics s) + Z.of_nat n.
Proof.
  induction m as [|m IH]; intros s Hw Hd Hk Hm Hlate.
  - exists 0%nat. pose proof Hw as (Hb & _).
    assert (next_expected_reliable s <= k)
      by (by apply Hb, elem_of_dom).
    assert (k = next_expected_reliable s) as Heq by lia.
    simpl. rewrite <- Heq. repeat split; try done; lia.
  - destruct (reliable_buffer s !! next_expected_reliable s) as [p|] eqn:E.
    { exists 0%nat. simpl. rewrite E. repeat split; try done; lia. }
    pose proof Hw as (Hb & _ & Hwin).
    assert (k ∈ dom (reliable_buffer s)) as Hk' by (by apply elem_of_dom).
    destruct (Hwin k (next_expected_reliable s) Hk') as [Hin|Hin]; [lia| |].
    { apply elem_of_dom in Hin as [? Hin]. congruence. }
    apply elem_of_dom in Hin as [t Ht].
    pose proof (Hlate _ _ Ht) as Hlate'. simpl in Hlate'.
    destruct (timeout_checker_skips now s t Ht Hlate')
      as (Hn & Hbuf & Hpen & Hsk).
    destruct (IH (_timeout_checker now s)) as (n & Hle & Hn' & Hbuf' & Hc & Hs).
    + apply (window_step (Timeout now)); done.
    + apply (step_disjoint (Timeout now)); done.
    + by rewrite Hbuf.
    + rewrite Hn. lia.
    + rewrite Hpen. by apply map_Forall_delete.
    + exists (S n). cbn [replicate]. rewrite run_cons.
      change (step (Timeout now) s).1 with (_timeout_checker now s).
      cbn [fst]. cbv zeta in *.
      split; [lia|]. split; [exact Hn'|].
      rewrite Hbuf', Hc, Hs, Hn, Hsk, Hbuf. repeat split; lia.
Qed.

(** X8. A buffered packet does not wait for ever.  From a state the
    server can reach in which sequence number [k] is buffered, and at a
    clock reading [now] by which every gap wait is older than the
    threshold, at most [k - cursor] passes of the timeout checker bring the
    cursor to a buffered packet.  Each of these passes skips one sequence
    number, and none changes the reorder buffer. *)
Theorem buffered_packet_is_reached_after_skips
    (s : server) (k : Z) (now : float) :
  reachable s ->
  is_Some (reliable_buffer s !! k) ->
  map_Forall (fun _ t => (TIMEOUT_THRESHOLD <? now - t)%float = true)
    (pending_packets s) ->
  exists n : nat,
    Z.of_nat n <= k - next_expected_reliable s
    /\ let s' := (run (replicate n (Timeout now)) s).1 in
       is_Some (reliable_buffer s' !! next_expected_reliable s')
       /\ reliable_buffer s' = reliable_buffer s
       /\ next_expected_reliable s' = next_expected_reliable s + Z.of_nat n
       /\ packets_skipped (metrics s')
          = packets_skipped (metrics s) + Z.of_nat n.
Proof.
  intros Hr Hk Hlate.
  apply (skips_reach_buffered now k
           (Z.to_nat (k - next_expected_reliable s))); try done.
  - destruct Hr as (start & evs & ->).
    apply window_run; [apply init_disjoint|apply window_init].
  - by apply reachable_disjoint.
Qed.

End Progress.

Section ServerSends.
Import Server.

Lemma answers_cons ev evs e : answers evs e -> answers (ev :: evs) e.
Proof.
  intros (data & a & arrival & now & k & ts & p & ack & Hin & H).
  exists data, a, arrival, now, k, ts, p, ack. split; [by right|done].
Qed.

Lemma step_answers ev evs :
  forall s, Forall (fun o => forall e, o = Socket e -> answers (ev :: evs) e)
              (step ev s).2.
Proof.
  intros s. destruct ev as [data a arrival now| | |now]; simpl.
  - rewrite packet_receiver_read.
    destruct (read_datagram data) as [[[[ch seqno] ts] payload]|] eqn:Hr;
      [|by apply Forall_nil].
    destruct (decide (ch = 0)) as [->|H0].
    + cbv zeta. destruct (_calculate_jitter _ _ _) as [m'|];
        [|by apply Forall_nil].
      destruct (_handle_reliable_channel _ _ _ _ _) as [[s' out]|] eqn:Hh;
        [|by apply Forall_nil].
      unfold _handle_reliable_channel in Hh.
      destruct (pack_BQ 255 seqno) as [ack|] eqn:Hp; simpl in Hh; [|done].
      assert (out = [SendTo ack a]) as ->
        by (repeat case_match; by simplify_eq).
      simpl. apply Forall_singleton. intros e [= <-].
      exists data, a, arrival, now, seqno, ts, payload, ack.
      split; [left|done].
    + destruct (decide (ch = 1)); by apply Forall_nil.
  - destruct (receive_reliable s) as [s' [r|]]; simpl;
      [apply Forall_singleton|apply Forall_nil]; done.
  - destruct (receive_unreliable s) as [s' [r|]]; simpl;
      [apply Forall_singleton|apply Forall_nil]; done.
  - by apply Forall_nil.
Qed.

(** X9. Whatever the server sends in a run, from any state, is the ack
    (sentinel 255 and the sequence number) of a reliable packet that it
    read in this run, sent to the address that packet came from.  The
    timeout checker and the two receive calls send nothing, and neither
    does an unreliable or malformed datagram. *)
Theorem server_sends_only_acks (evs : list event) (s : server) :
  Forall (fun o => forall e, o = Socket e -> answers evs e) (run evs s).2.
Proof.
  revert s. induction evs as [|ev evs IH]; intros s; [by apply Forall_nil|].
  rewrite run_cons. simpl. apply Forall_app. split.
  - apply step_answers.
  - eapply Forall_impl; [apply IH|]. simpl. intros o Ho e He.
    by apply answers_cons, Ho.
Qed.

End ServerSends.

(** ** More facts about the client *)

Section ClientInvariant.
Import Client.

Lemma client_run_cons ev evs c :
  run (ev :: evs) c =
  ((run evs (step ev c).1).1, (step ev c).2 ++ (run evs (step ev c).1).2).
Proof.
  simpl. destruct (step ev c) as [c1 o1]. simpl.
  by destruct (run evs c1).
Qed.

Lemma dict_set_length {V} k (v : V) d :
  length (dict_set k v d)
  = match dict_get k d with Some _ => length d | None => S (length d) end.
Proof.
  pose proof (dict_set_keys k v d) as H.
  apply (f_equal length) in H. rewrite length_fmap in H. rewrite H.
  destruct (dict_get k d); rewrite ?length_app, length_fmap; simpl; lia.
Qed.

Lemma dict_del_length {V} k (d : dict V) :
  length (dict_del k d)
  = match dict_get k d with Some _ => pred (length d) | None => length d end.
Proof.
  induction d as [|[k' v'] d IH]; simpl; [done|].
  case_decide; simpl; [done|]. rewrite IH.
  destruct (dict_get k d) eqn:E; [|done].
  destruct d; [done|simpl; lia].
Qed.

Lemma omap_length_le {A B} (f : A -> option B) (l : list A) :
  (length (omap f l) <= length l)%nat.
Proof.
  induction l as [|x l IH]; [done|].
  rewrite omap_cons_list, length_app. destruct (f x); simpl; lia.
Qed.

Lemma retransmit_item_metrics current acc item :
  let r := retransmit_item current acc item in
  packets_sent_reliable (metrics r.1) = packets_sent_reliable (metrics acc.1)
  /\ packets_sent_unreliable (metrics r.1)
     = packets_sent_unreliable (metrics acc.1)
  /\ packets_acked (metrics r.1) = packets_acked (metrics acc.1)
  /\ latencies (metrics r.1) = latencies (metrics acc.1)
  /\ bytes_sent (metrics r.1) = bytes_sent (metrics acc.1).
Proof.
  destruct acc as [c out], item as [k info]. unfold retransmit_item.
  cbv zeta. destruct (_ <? _)%float; [|done].
  by destruct (_ <? _)%float.
Qed.

Lemma retransmit_fold_metrics current l : forall acc,
  let r := foldl (retransmit_item current) acc l in
  packets_sent_reliable (metrics r.1) = packets_sent_reliable (metrics acc.1)
  /\ packets_sent_unreliable (metrics r.1)
     = packets_sent_unreliable (metrics acc.1)
  /\ packets_acked (metrics r.1) = packets_acked (metrics acc.1)
  /\ latencies (metrics r.1) = latencies (metrics acc.1)
  /\ bytes_sent (metrics r.1) = bytes_sent (metrics acc.1).
Proof.
  induction l as [|item l IH]; intros acc; [done|].
  cbn [foldl]. cbv zeta.
  destruct (IH (retransmit_item current acc item)) as (-> & -> & -> & -> & ->).
  apply retransmit_item_metrics.
Qed.

Lemma client_ok_init host port : client_ok (init host port).
Proof.
  unfold client_ok. simpl. repeat split; try lia; try done.
  apply NoDup_nil_2.
Qed.

Lemma client_ok_send payload isReliable t_stamp t_send c c' out ret :
  client_ok c ->
  send_message payload isReliable t_stamp t_send c = Some (c', out, ret) ->
  client_ok c'.
Proof.
  intros (Hwf & Ht & Hs & Hn & Hu & Ha & Hl & Hr & Hb) H.
  pose proof (send_message_wf _ _ _ _ _ _ Hwf H) as Hwf'. simpl in Hwf'.
  unfold send_message in H.
  destruct (int_of_float _) as [ts|]; simpl in H; [|done].
  destruct (pack_BQQ _ _ _) as [hb|] eqn:Hp; simpl in H; [|done].
  destruct (utf8_encode _) as [pb|]; simpl in H; [|done].
  case_decide as Hsize; [done|].
  injection H as <- <- <-.
  assert (seqno c < 2 ^ 64) as Hlt.
  { unfold pack_BQQ in Hp. case_decide; [lia|done]. }
  assert (dict_get (seqno c) (pending_packets c) = None) as Hnew.
  { destruct (dict_get _ _) as [info|] eqn:E; [|done].
    apply Ht in E as (E & _). lia. }
  unfold client_ok. simpl. split; [done|]. split.
  - intros k info Hk. destruct isReliable.
    + destruct (decide (k = seqno c)) as [->|Hne].
      * rewrite dict_get_set_eq in Hk. injection Hk as <-.
        pose proof (pack_BQQ_length _ _ _ _ Hp) as Hlen.
        unfold tracked_ok. simpl.
        split; [lia|]. split; [lia|].
        split; [rewrite length_app; unfold HEADER_SIZE; lia|].
        split; [lia|].
        exists ts. unfold HEADER_SIZE.
        rewrite take_app_length' by done. by apply unpack_pack_BQQ.
      * rewrite dict_get_set_ne in Hk by done. apply Ht in Hk.
        destruct Hk as (Hk & Hr' & Hl' & Hm' & Hu').
        repeat split; simpl; [lia|lia|done|done|done|done].
    + apply Ht in Hk. destruct Hk as (Hk & Hr' & Hl' & Hm' & Hu').
      repeat split; simpl; [lia|lia|done|done|done|done].
  - destruct isReliable; simpl.
    + rewrite dict_set_length, Hnew. repeat split; lia.
    + repeat split; lia.
Qed.

Lemma client_ok_ack data now c :
  client_ok c -> client_ok (_ack_listener data now c).
Proof.
  intros Hok. pose proof Hok as (Hwf & Ht & Hs & Hn & Hu & Ha & Hl & Hr & Hb).
  unfold _ack_listener. case_decide; [|done].
  destruct (unpack_BQ _) as [[ch k]|]; [|done].
  case_decide; [|done].
  destruct (dict_get k (pending_packets c)) as [info|] eqn:E; [|done].
  unfold client_ok. simpl. split; [by apply dict_wf_del|]. split.
  - intros k' info' Hk'. destruct (decide (k = k')) as [->|Hne].
    + by rewrite dict_get_del_eq in Hk'.
    + rewrite dict_get_del_ne in Hk' by done. by apply Ht in Hk'.
  - rewrite dict_del_length, E, length_app. simpl.
    assert (length (pending_packets c) <> 0%nat)
      by (destruct (pending_packets c); done).
    repeat split; lia.
Qed.

Lemma client_ok_retransmit current c :
  client_ok c -> client_ok (_retransmit_checker current c).1.
Proof.
  intros (Hwf & Ht & Hs & Hn & Hu & Ha & Hl & Hr & Hb).
  destruct (retransmit_fold current (pending_packets c) [] c [])
    as (Hp & Hout & Haddr & Hseq & Hre); [done..|].
  destruct (retransmit_fold_metrics current (pending_packets c) (c, []))
    as (M1 & M2 & M3 & M4 & M5).
  fold (_retransmit_checker current c) in Hp, Hout, Haddr, Hseq, Hre,
    M1, M2, M3, M4, M5.
  simpl in Hp, M1, M2, M3, M4, M5.
  unfold client_ok. cbv zeta.
  rewrite M1, M2, M3, M4, M5, Hre, Hseq.
  split; [by apply retransmit_checker_wf|]. split.
  - intros k info Hk. rewrite Hp, dict_get_omap in Hk by done.
    destruct (dict_get k (pending_packets c)) as [info0|] eqn:E; [|done].
    simpl in Hk. apply Ht in E as (E1 & E2 & E3 & E4 & E5).
    unfold entry_after_pass in Hk.
    unfold tracked_ok. rewrite Hseq.
    destruct (_ <? _)%float; [|by simplify_eq].
    destruct (_ <? _)%float; [done|]. simplify_eq.
    simpl. repeat split; try done; lia.
  - assert (length (pending_packets (_retransmit_checker current c).1)
            <= length (pending_packets c))%nat.
    { rewrite Hp. simpl. apply omap_length_le. }
    repeat split; lia.
Qed.

Lemma client_ok_step ev c : client_ok c -> client_ok (step ev c).1.
Proof.
  intros Hok.
  destruct ev as [payload isReliable t_stamp t_send|data now|current]; simpl.
  - destruct (send_message _ _ _ _ _) as [[[c' out] ret]|] eqn:E; [|done].
    by eapply client_ok_send.
  - by apply client_ok_ack.
  - by apply client_ok_retransmit.
Qed.

Lemma client_ok_run evs c : client_ok c -> client_ok (run evs c).1.
Proof.
  revert c. induction evs as [|ev evs IH]; intros c H; [done|].
  rewrite client_run_cons. simpl. by apply IH, client_ok_step.
Qed.

(** X10. In every state the client can reach by calls of [send_message],
    datagrams read by [_ack_listener] and passes of [_retransmit_checker]:
    the tracked entries have distinct keys; each is keyed by a sequence
    number already given out and holds a reliable packet of at most 65507
    bytes whose header carries that number, with a retry count that is not
    negative; the sequence number is the number of packets sent on both
    channels and is at most 2^64 (a send beyond that raises and changes
    nothing);
    [packets_acked] is the number of latencies recorded; and the packets
    acknowledged plus the packets still tracked are at most the reliable
    packets sent. *)
Theorem client_bookkeeping_is_consistent (c : client) :
  reachable c -> client_ok c.
Proof.
  intros (host & port & evs & ->). apply client_ok_run, client_ok_init.
Qed.

End ClientInvariant.

Section ClientNoOps.
Import Client.

(** X11. An acknowledgement counts once.  The keys of [pending_packets]
    being distinct, as those of a dict are: when [_ack_listener] has read a
    datagram, reading the same datagram again, at any clock reading,
    changes nothing, neither the tracked packets nor [packets_acked] nor
    the latencies. *)
Theorem duplicate_ack_changes_nothing
    (data : bytes) (now now' : float) (c : client) :
  dict_wf (pending_packets c) ->
  _ack_listener data now' (_ack_listener data now c)
  = _ack_listener data now c.
Proof.
  intros Hwf. unfold _ack_listener at 2 3.
  case_decide as Hlen; [|unfold _ack_listener; by rewrite decide_False].
  destruct (unpack_BQ _) as [[ch k]|] eqn:Hu;
    [|unfold _ack_listener; by rewrite decide_True, Hu].
  case_decide as Hch;
    [|unfold _ack_listener; by rewrite decide_True, Hu, decide_False].
  destruct (dict_get k (pending_packets c)) as [info|] eqn:E.
  - unfold _ack_listener. rewrite decide_True, Hu, decide_True by done.
    cbn [pending_packets]. by rewrite dict_get_del_eq.
  - unfold _ack_listener. by rewrite decide_True, Hu, decide_True, E.
Qed.

(** X12. [_ack_listener] changes the client only for an ack of a tracked
    packet: a datagram shorter than an ack, one whose first byte is not
    255, or an ack of a sequence number that is not tracked (never sent
    reliably, acknowledged before, or given up) leaves the client as it
    is. *)
Theorem ack_listener_ignores_other_datagrams
    (data : bytes) (now : float) (c : client) :
  (forall k, unpack_BQ (take ACK_SIZE data) = Some (255, k) ->
             dict_get k (pending_packets c) = None) ->
  _ack_listener data now c = c.
Proof.
  intros H. unfold _ack_listener. case_decide; [|done].
  destruct (unpack_BQ _) as [[ch k]|]; [|done].
  case_decide as Hch; [|done]. subst ch. by rewrite (H k).
Qed.

Lemma retransmit_item_fresh current c out item :
  (TIMEOUT <? current - send_time item.2)%float = false ->
  retransmit_item current (c, out) item = (c, out).
Proof.
  destruct item as [k info]. simpl. by intros ->.
Qed.

(** X13. A pass of [_retransmit_checker] at a clock reading at which no
    tracked packet is older than [TIMEOUT] sends nothing and leaves the
    client as it is; so does a pass over an empty [pending_packets]. *)
Theorem retransmit_pass_before_timeout_does_nothing
    (current : float) (c : client) :
  Forall (fun item => (TIMEOUT <? current - send_time item.2)%float = false)
    (pending_packets c) ->
  _retransmit_checker current c = (c, []).
Proof.
  unfold _retransmit_checker. generalize (@nil effect).
  generalize (pending_packets c) as l.
  induction l as [|item l IH]; intros out H; [done|].
  apply Forall_cons in H as [Hi H].
  cbn [foldl]. rewrite retransmit_item_fresh by done. by apply IH.
Qed.

End ClientNoOps.

Section ClientSends.
Import Client.

Lemma dict_get_elem {V} k (v : V) (d : dict V) :
  dict_wf d -> (k, v) ∈ d -> dict_get k d = Some v.
Proof.
  unfold dict_wf. induction d as [|[k' v'] d IH]; intros Hwf Hin.
  { by apply elem_of_nil in Hin. }
  simpl in Hwf. apply NoDup_cons in Hwf as [Hk Hwf]. simpl.
  apply elem_of_cons in Hin as [Heq|Hin].
  - injection Heq as <- <-. by rewrite decide_True.
  - rewrite decide_False; [by apply IH|]. intros <-. apply Hk.
    apply list_elem_of_fmap. by exists (k, v).
Qed.

Lemma framed_mono bound bound' peer e :
  bound <= bound' -> framed bound peer e -> framed bound' peer e.
Proof.
  intros Hle (data & ch & k & ts & He & Hl & Hu & Hc & Hk).
  exists data, ch, k, ts. repeat split; try done; lia.
Qed.

Lemma step_addr_seqno ev c :
  dict_wf (pending_packets c) ->
  addr (step ev c).1 = addr c /\ seqno c <= seqno (step ev c).1.
Proof.
  intros Hwf.
  destruct ev as [payload isReliable t_stamp t_send|data now|current]; simpl.
  - destruct (send_message _ _ _ _ _) as [[[c' out] ret]|] eqn:E;
      [|simpl; split; [done|lia]].
    apply send_message_inv in E
      as (? & ? & ? & _ & _ & _ & _ & _ & Hn & Ha & _).
    simpl. rewrite Hn, Ha. split; [done|lia].
  - unfold _ack_listener. repeat case_match; simpl; split; done || lia.
  - destruct (retransmit_fold current (pending_packets c) [] c [])
      as (_ & _ & Ha & Hs & _); [done..|].
    fold (_retransmit_checker current c) in Ha, Hs. rewrite Ha, Hs.
    split; [done|lia].
Qed.

Lemma run_addr_seqno evs : forall c,
  client_ok c ->
  addr (run evs c).1 = addr c /\ seqno c <= seqno (run evs c).1.
Proof.
  induction evs as [|ev evs IH]; intros c Hok; [simpl; split; [done|lia]|].
  rewrite client_run_cons. simpl.
  destruct (step_addr_seqno ev c) as [Ha Hs]; [apply Hok|].
  destruct (IH (step ev c).1) as [Ha' Hs']; [by apply client_ok_step|].
  rewrite Ha', Ha. split; [done|lia].
Qed.

Lemma step_framed ev c :
  client_ok c -> Forall (framed (seqno (step ev c).1) (addr c)) (step ev c).2.
Proof.
  intros Hok. pose proof Hok as (Hwf & Ht & Hs & _).
  destruct ev as [payload isReliable t_stamp t_send|data now|current]; simpl.
  - destruct (send_message _ _ _ _ _) as [[[c' out] ret]|] eqn:E;
      [|by apply Forall_nil].
    apply send_message_inv in E
      as (ts & hb & pb & _ & Hp & _ & -> & _ & Hn & _).
    pose proof (pack_BQQ_length _ _ _ _ Hp) as Hl.
    simpl. apply Forall_singleton.
    exists (hb ++ pb), (if isReliable then 0 else 1), (seqno c), ts.
    unfold HEADER_SIZE. split; [done|].
    split; [rewrite length_app; lia|].
    split; [rewrite take_app_length' by done; by apply unpack_pack_BQQ|].
    split; [destruct isReliable; [by left|by right]|lia].
  - by apply Forall_nil.
  - destruct (retransmit_fold current (pending_packets c) [] c [])
      as (_ & Hout & _ & Hseq & _); [done..|].
    fold (_retransmit_checker current c) in Hout, Hseq.
    simpl in Hout. rewrite Hout, Hseq.
    apply Forall_forall. intros e He.
    apply list_elem_of_omap in He as ([k info] & Hin & He).
    unfold resent_in_pass in He. simpl in He.
    destruct (_ && _); [|done]. injection He as <-.
    apply dict_get_elem in Hin; [|done].
    apply Ht in Hin as (Hk & _ & Hl & _ & [ts Hu]).
    exists (packet info), 0, k, ts. repeat split; try done; [by left|lia..].
Qed.

Lemma run_framed evs : forall c,
  client_ok c -> Forall (framed (seqno (run evs c).1) (addr c)) (run evs c).2.
Proof.
  induction evs as [|ev evs IH]; intros c Hok; [by apply Forall_nil|].
  rewrite client_run_cons. simpl.
  pose proof (client_ok_step ev c Hok) as Hok'.
  destruct (step_addr_seqno ev c) as [Ha Hs]; [apply Hok|].
  destruct (run_addr_seqno evs (step ev c).1 Hok') as [_ Hs'].
  apply Forall_app. split.
  - eapply Forall_impl; [by apply step_framed|]. simpl.
    intros e. by apply framed_mono.
  - rewrite <- Ha. by apply IH.
Qed.

(** X14. Every datagram the client sends in a run from [__init__],
    whether by [send_message] or as a retransmission, goes to the address
    given to [__init__] and starts with a 17-byte header whose channel type
    is 0 or 1 and whose sequence number is one the client has given out. *)
Theorem client_sends_only_framed_packets_to_its_peer
    (host : string) (port : Z) (evs : list event) :
  Forall (framed (seqno (run evs (init host port)).1) (host, port))
    (run evs (init host port)).2.
Proof. apply (run_framed evs (init host port)), client_ok_init. Qed.

End ClientSends.

(** ** One message, from the call to the other endpoint and back *)

Section RoundTrips.
Import Server.






End RoundTrips.

(** ** What does not fit a datagram or a read *)

Section Limits.
Import Server.

(** X17. A datagram the socket does not take.  When the payload encodes
    to more than 65490 bytes of UTF-8, so that header and payload are more
    than the 65507 bytes of a UDP datagram, [send_message] raises, on
    either channel and whatever the clock and the counter are: nothing is
    sent, and the client is as before the call, so the sequence number is
    not used up and nothing is tracked. *)
Theorem oversize_send_raises_and_changes_nothing
    (payload : str) (isReliable : bool) (t_stamp t_send : float)
    (c : Client.client) (pb : bytes) :
  utf8_encode payload = Some pb ->
  65490 < Z.of_nat (length pb) ->
  Client.send_message payload isReliable t_stamp t_send c = None
  /\ Client.step (Client.Send payload isReliable t_stamp t_send) c = (c, []).
Proof.
  intros He Hsize.
  assert (Client.send_message payload isReliable t_stamp t_send c = None)
    as Hnone.
  { unfold Client.send_message.
    destruct (int_of_float _) as [ts|]; simpl; [|done].
    destruct (pack_BQQ _ _ _) as [hb|] eqn:Hp; simpl; [|done].
    rewrite He. simpl. rewrite decide_True; [done|].
    rewrite length_app, (pack_BQQ_length _ _ _ _ Hp).
    unfold MAX_DATAGRAM. lia. }
  split; [done|]. simpl. by rewrite Hnone.
Qed.

Lemma recvfrom_cut (hb pb : bytes) :
  length hb = 17%nat ->
  recvfrom 1024 (hb ++ pb) = hb ++ take 1007 pb.
Proof.
  intros Hl. unfold recvfrom. rewrite take_app, Hl.
  by rewrite take_ge by lia.
Qed.

(** X18. A datagram the server does not read whole.  When the payload of
    a packet encodes to more than 1007 bytes of UTF-8, [recvfrom(1024)]
    gives the header and the first 1007 bytes of the payload, and
    [_packet_receiver] does with them what it does with a packet of that
    shorter payload: it reads the header fields as sent and decodes the
    cut bytes.  What it decodes, if the cut bytes decode at all (the cut
    may fall inside the bytes of one character), is never the payload that
    was sent. *)
Theorem long_packet_is_read_cut
    (payload : str) (pb hb : bytes) (channel_type seqno timestamp : Z)
    (a : address) (arrival now : float) (s : server) :
  utf8_encode payload = Some pb ->
  pack_BQQ channel_type seqno timestamp = Some hb ->
  (1007 < length pb)%nat ->
  _packet_receiver (recvfrom 1024 (hb ++ pb)) a arrival now s
  = _packet_receiver (hb ++ take 1007 pb) a arrival now s
  /\ read_datagram (recvfrom 1024 (hb ++ pb))
     = (p ← utf8_decode (take 1007 pb);
        Some (channel_type, seqno, timestamp, p))
  /\ (forall sq ts p,
        read_datagram (recvfrom 1024 (hb ++ pb))
        = Some (channel_type, sq, ts, p) -> p <> payload)
  /\ (utf8_decode (take 1007 pb) = None ->
      _packet_receiver (recvfrom 1024 (hb ++ pb)) a arrival now s = (s, [])).
Proof.
  intros He Hp Hlen. pose proof (pack_BQQ_length _ _ _ _ Hp) as Hl.
  rewrite recvfrom_cut by done.
  assert (read_datagram (hb ++ take 1007 pb)
          = (p ← utf8_decode (take 1007 pb);
             Some (channel_type, seqno, timestamp, p))) as Hread.
  { unfold read_datagram, HEADER_SIZE.
    rewrite decide_False by (rewrite length_app; lia).
    rewrite take_app_length', drop_app_length' by done.
    by rewrite (unpack_pack_BQQ _ _ _ _ Hp). }
  split; [done|]. split; [done|]. split.
  - intros sq ts p. rewrite Hread.
    destruct (utf8_decode (take 1007 pb)) as [p'|] eqn:Hd; [|done].
    simpl. intros [= _ _ <-] ->.
    apply (encode_decode_upto (length (take 1007 pb))) in Hd; [|done].
    rewrite He in Hd. injection Hd as Hd.
    apply (f_equal length) in Hd. rewrite length_take in Hd. lia.
  - intros Hd. by rewrite packet_receiver_read, Hread, Hd.
Qed.

End Limits.

(** ** The theorems at concrete inputs *)

Section Witnesses.
Import Example.

Lemma buffer_and_gap_wait_keys_stay_disjoint_witness :
  Server.disjoint waiting
  /\ Server.disjoint
       (Server.run [Server.Timeout 1.5; Server.ReceiveReliable] waiting).1.
Proof.
  assert (Server.disjoint waiting) as H.
  { apply (bool_decide_unpack _). vm_compute. exact I. }
  split; [exact H|].
  exact (proj1 (buffer_and_gap_wait_keys_stay_disjoint waiting
                  [Server.Timeout 1.5; Server.ReceiveReliable] H)).
Defined.

Lemma receive_reliable_delivers_at_cursor_witness :
  Server.reachable waiting
  /\ match Server.reliable_buffer waiting
           !! Server.next_expected_reliable waiting with
     | Some _ => True
     | None => Server.receive_reliable waiting = (waiting, None)
     end.
Proof.
  assert (Server.reachable waiting) as H.
  { exists 0%float, [Server.Packet (datagram 1 1010 [98]) peer 1.0 1.0].
    reflexivity. }
  split; [exact H|].
  pose proof (receive_reliable_delivers_at_cursor waiting H) as R.
  destruct (Server.reliable_buffer waiting
              !! Server.next_expected_reliable waiting); [exact I|exact R].
Defined.

Lemma reliable_packet_is_always_acked_witness :
  0 <= 3 < 2 ^ 64
  /\ exists s',
       Server._handle_reliable_channel 3 [104] peer 2.0 waiting
       = Some (s', [SendTo (byte.of_Z 255 :: le_split 8 3) peer]).
Proof.
  assert (0 <= 3 < 2 ^ 64) as H by lia.
  split; [exact H|].
  exact (proj1 (proj2 (reliable_packet_is_always_acked 3 [104] peer 2.0
                         waiting H))).
Defined.

Lemma skipped_sequence_number_is_never_delivered_witness :
  Server.pending_packets waiting !! Server.next_expected_reliable waiting
  = Some 1.0%float
  /\ (Server.TIMEOUT_THRESHOLD <? 1.5 - 1.0)%float = true
  /\ forall payload,
       (0, payload) ∉
       Server.delivered
         (Server.run [Server.ReceiveReliable;
                      Server.Packet (datagram 0 1000 [97]) peer 1.6 1.6;
                      Server.ReceiveReliable]
            (Server._timeout_checker 1.5 waiting)).2.
Proof.
  assert (Server.pending_packets waiting
            !! Server.next_expected_reliable waiting = Some 1.0%float) as H1.
  { vm_compute. reflexivity. }
  assert ((Server.TIMEOUT_THRESHOLD <? 1.5 - 1.0)%float = true) as H2.
  { vm_compute. reflexivity. }
  split; [exact H1|]. split; [exact H2|].
  pose proof (skipped_sequence_number_is_never_delivered waiting 1.5 1.0
                [Server.ReceiveReliable;
                 Server.Packet (datagram 0 1000 [97]) peer 1.6 1.6;
                 Server.ReceiveReliable] H1 H2) as R.
  exact (proj1 (proj2 (proj2 (proj2 (proj2 R))))).
Defined.


Lemma ack_listener_matches_tracked_packet_witness :
  Client.dict_wf (Client.pending_packets sender)
  /\ (Client.ACK_SIZE <= length (byte.of_Z 255 :: le_split 8 0))%nat
  /\ unpack_BQ (take Client.ACK_SIZE (byte.of_Z 255 :: le_split 8 0))
     = Some (255, 0)
  /\ Client.pending_packets
       (Client._ack_listener (byte.of_Z 255 :: le_split 8 0) 1.75 sender)
     = [].
Proof.
  assert (Client.dict_wf (Client.pending_packets sender)) as H1.
  { apply (bool_decide_unpack _). vm_compute. exact I. }
  assert (Client.ACK_SIZE <= length (byte.of_Z 255 :: le_split 8 0))%nat
    as H2 by (vm_compute; lia).
  assert (unpack_BQ (take Client.ACK_SIZE (byte.of_Z 255 :: le_split 8 0))
          = Some (255, 0)) as H3 by (vm_compute; reflexivity).
  split; [exact H1|]. split; [exact H2|]. split; [exact H3|].
  pose proof (ack_listener_matches_tracked_packet
                (byte.of_Z 255 :: le_split 8 0) 1.75 sender 0 H1 H2 H3) as R.
  cbv zeta in R.
  destruct (Client.dict_get 0 (Client.pending_packets sender)) eqn:E.
  - destruct R as (_ & _ & -> & _). vm_compute. reflexivity.
  - vm_compute in E. discriminate.
Defined.

Lemma retransmit_pass_drops_resends_or_keeps_witness :
  Client.dict_wf (Client.pending_packets sender)
  /\ exists info,
       Client.dict_get 0 (Client.pending_packets sender) = Some info
       /\ Client.send_time info = 1.5%float
       /\ Client.retries info = 0
       /\ (Client.dict_get 0
             (Client.pending_packets (Client._retransmit_checker 1.55 sender).1)
           = Some info
           /\ (Client._retransmit_checker 1.55 sender).2 = [])
       /\ (Client.dict_get 0
             (Client.pending_packets (Client._retransmit_checker 1.65 sender).1)
           = Some {| Client.packet := Client.packet info;
                     Client.send_time := 1.65; Client.retries := 1 |}
           /\ (Client._retransmit_checker 1.65 sender).2
              = [SendTo (Client.packet info) (Client.addr sender)])
       /\ (Client.dict_get 0
             (Client.pending_packets (Client._retransmit_checker 1.75 sender).1)
           = None
           /\ (Client._retransmit_checker 1.75 sender).2 = []).
Proof.
  assert (Client.dict_wf (Client.pending_packets sender)) as H1.
  { apply (bool_decide_unpack _). vm_compute. exact I. }
  split; [exact H1|].
  destruct (Client.dict_get 0 (Client.pending_packets sender)) as [info|] eqn:E.
  2:{ vm_compute in E. discriminate. }
  pose proof (retransmit_pass_drops_resends_or_keeps 1.55 sender 0 info H1 E)
    as (K1 & K2 & _).
  pose proof (retransmit_pass_drops_resends_or_keeps 1.65 sender 0 info H1 E)
    as (R1 & R2 & _).
  pose proof (retransmit_pass_drops_resends_or_keeps 1.75 sender 0 info H1 E)
    as (D1 & D2 & _).
  vm_compute in E. injection E as <-.
  eexists. split; [reflexivity|]. split; [reflexivity|].
  split; [reflexivity|].
  split; [split; [exact K1|exact K2]|].
  split; [split; [exact (proj1 R1)|exact R2]|].
  split; [exact D1|exact D2].
Defined.



End Witnesses.

(** ** The further theorems at concrete inputs *)

Section MoreWitnesses.
Import Example.

Lemma reliable_handler_never_overwrites_witness :
  exists s' out,
    Server._handle_reliable_channel 1 [120] peer 2.0 waiting = Some (s', out)
    /\ Server.reliable_buffer s' !! 1 = Some [98].
Proof.
  destruct (Server._handle_reliable_channel 1 [120] peer 2.0 waiting)
    as [[s' out]|] eqn:E.
  - exists s', out. split; [reflexivity|].
    apply (proj1 (reliable_handler_never_overwrites 1 [120] peer 2.0
                    waiting s' out E)).
    vm_compute. reflexivity.
  - vm_compute in E. discriminate.
Defined.

Lemma other_datagrams_leave_reliable_channel_witness :
  (forall seqno timestamp payload,
     Server.read_datagram [Byte.x01; Byte.x02]
     <> Some (0, seqno, timestamp, payload))
  /\ (Server._packet_receiver [Byte.x01; Byte.x02] peer 1.0 1.0 waiting).2
     = [].
Proof.
  assert (forall seqno timestamp payload,
            Server.read_datagram [Byte.x01; Byte.x02]
            <> Some (0, seqno, timestamp, payload)) as H.
  { intros seqno timestamp payload. vm_compute. discriminate. }
  split; [exact H|].
  exact (proj1 (other_datagrams_leave_reliable_channel [Byte.x01; Byte.x02]
                  peer 1.0 1.0 waiting H)).
Defined.

Lemma buffered_packets_are_reached_by_the_cursor_witness :
  Server.reachable waiting /\ Server.window_ok waiting.
Proof.
  assert (Server.reachable waiting) as Hw.
  { exists 0%float, [Server.Packet (datagram 1 1010 [98]) peer 1.0 1.0].
    reflexivity. }
  split; [exact Hw|].
  exact (proj1 (buffered_packets_are_reached_by_the_cursor waiting
                  Hw)).
Defined.

Lemma counters_account_for_the_cursor_witness :
  Server.reachable waiting /\ Server.counters_ok waiting.
Proof.
  assert (Server.reachable waiting) as Hw.
  { exists 0%float, [Server.Packet (datagram 1 1010 [98]) peer 1.0 1.0].
    reflexivity. }
  split; [exact Hw|].
  exact (counters_account_for_the_cursor waiting Hw).
Defined.

Lemma buffered_packet_is_reached_after_skips_witness :
  Server.reachable waiting
  /\ is_Some (Server.reliable_buffer waiting !! 1)
  /\ map_Forall
       (fun _ t => (Server.TIMEOUT_THRESHOLD <? 1.5 - t)%float = true)
       (Server.pending_packets waiting)
  /\ exists n : nat,
       Z.of_nat n <= 1 - Server.next_expected_reliable waiting
       /\ is_Some
            (Server.reliable_buffer
               (Server.run (replicate n (Server.Timeout 1.5)) waiting).1
             !! Server.next_expected_reliable
                  (Server.run (replicate n (Server.Timeout 1.5)) waiting).1).
Proof.
  assert (Server.reachable waiting) as Hw.
  { exists 0%float, [Server.Packet (datagram 1 1010 [98]) peer 1.0 1.0].
    reflexivity. }
  assert (is_Some (Server.reliable_buffer waiting !! 1)) as H1.
  { exists [98]. vm_compute. reflexivity. }
  assert (map_Forall
            (fun _ t => (Server.TIMEOUT_THRESHOLD <? 1.5 - t)%float = true)
            (Server.pending_packets waiting)) as H2.
  { apply (bool_decide_unpack _). vm_compute. exact I. }
  split; [exact Hw|]. split; [exact H1|]. split; [exact H2|].
  destruct (buffered_packet_is_reached_after_skips waiting 1 1.5
              Hw H1 H2) as (n & Hle & Hs & _).
  exists n. split; [exact Hle|exact Hs].
Defined.

Lemma client_bookkeeping_is_consistent_witness :
  Client.reachable sender /\ Client.client_ok sender.
Proof.
  assert (Client.reachable sender) as Hs.
  { exists "127.0.0.1"%string, 65432, [Client.Send [104; 105] true 1.5 1.5].
    vm_compute. reflexivity. }
  split; [exact Hs|].
  exact (client_bookkeeping_is_consistent sender Hs).
Defined.

Lemma duplicate_ack_changes_nothing_witness :
  Client.dict_wf (Client.pending_packets sender)
  /\ Client._ack_listener (byte.of_Z 255 :: le_split 8 0) 1.9
       (Client._ack_listener (byte.of_Z 255 :: le_split 8 0) 1.75 sender)
     = Client._ack_listener (byte.of_Z 255 :: le_split 8 0) 1.75 sender.
Proof.
  assert (Client.dict_wf (Client.pending_packets sender)) as H.
  { apply (bool_decide_unpack _). vm_compute. exact I. }
  split; [exact H|].
  exact (duplicate_ack_changes_nothing (byte.of_Z 255 :: le_split 8 0)
           1.75 1.9 sender H).
Defined.

Lemma ack_listener_ignores_other_datagrams_witness :
  (forall k,
     unpack_BQ (take Client.ACK_SIZE (byte.of_Z 255 :: le_split 8 7))
     = Some (255, k) ->
     Client.dict_get k (Client.pending_packets sender) = None)
  /\ Client._ack_listener (byte.of_Z 255 :: le_split 8 7) 1.75 sender
     = sender.
Proof.
  assert (forall k,
            unpack_BQ (take Client.ACK_SIZE (byte.of_Z 255 :: le_split 8 7))
            = Some (255, k) ->
            Client.dict_get k (Client.pending_packets sender) = None) as H.
  { intros k Hk. vm_compute in Hk. injection Hk as <-.
    vm_compute. reflexivity. }
  split; [exact H|].
  exact (ack_listener_ignores_other_datagrams
           (byte.of_Z 255 :: le_split 8 7) 1.75 sender H).
Defined.

Lemma retransmit_pass_before_timeout_does_nothing_witness :
  Forall (fun item =>
            (Client.TIMEOUT <? 1.55 - Client.send_time item.2)%float = false)
    (Client.pending_packets sender)
  /\ Client._retransmit_checker 1.55 sender = (sender, []).
Proof.
  assert (Forall
            (fun item =>
               (Client.TIMEOUT <? 1.55 - Client.send_time item.2)%float
               = false)
            (Client.pending_packets sender)) as H.
  { apply (bool_decide_unpack _). vm_compute. exact I. }
  split; [exact H|].
  exact (retransmit_pass_before_timeout_does_nothing 1.55 sender H).
Defined.



Lemma utf8_encode_ascii (n : nat) :
  utf8_encode (replicate n 97) = Some (replicate n Byte.x61).
Proof.
  induction n as [|n IH]; [done|].
  cbn [replicate utf8_encode]. rewrite IH. reflexivity.
Qed.

Lemma oversize_send_raises_and_changes_nothing_witness :
  utf8_encode (replicate (Z.to_nat 65491) 97)
  = Some (replicate (Z.to_nat 65491) Byte.x61)
  /\ 65490 < Z.of_nat (length (replicate (Z.to_nat 65491) Byte.x61))
  /\ Client.send_message (replicate (Z.to_nat 65491) 97) true 1.5 1.5 sender
     = None.
Proof.
  assert (utf8_encode (replicate (Z.to_nat 65491) 97)
          = Some (replicate (Z.to_nat 65491) Byte.x61)) as H1
    by apply utf8_encode_ascii.
  assert (65490 < Z.of_nat (length (replicate (Z.to_nat 65491) Byte.x61)))
    as H2 by (rewrite length_replicate; lia).
  split; [exact H1|]. split; [exact H2|].
  exact (proj1 (oversize_send_raises_and_changes_nothing
                  (replicate (Z.to_nat 65491) 97) true 1.5 1.5 sender
                  (replicate (Z.to_nat 65491) Byte.x61) H1 H2)).
Defined.

Lemma long_packet_is_read_cut_witness :
  utf8_encode (replicate 1008 97) = Some (replicate 1008 Byte.x61)
  /\ pack_BQQ 0 1 2250
     = Some (le_split 1 0 ++ le_split 8 1 ++ le_split 8 2250)
  /\ (1007 < length (replicate 1008 Byte.x61))%nat
  /\ forall sq ts p,
       Server.read_datagram
         (recvfrom 1024
            ((le_split 1 0 ++ le_split 8 1 ++ le_split 8 2250)
             ++ replicate 1008 Byte.x61))
       = Some (0, sq, ts, p) ->
       p <> replicate 1008 97.
Proof.
  assert (utf8_encode (replicate 1008 97) = Some (replicate 1008 Byte.x61))
    as H1 by apply utf8_encode_ascii.
  assert (pack_BQQ 0 1 2250
          = Some (le_split 1 0 ++ le_split 8 1 ++ le_split 8 2250)) as H2
    by (vm_compute; reflexivity).
  assert (1007 < length (replicate 1008 Byte.x61))%nat as H3
    by (rewrite length_replicate; lia).
  split; [exact H1|]. split; [exact H2|]. split; [exact H3|].
  exact (proj1 (proj2 (proj2 (long_packet_is_read_cut (replicate 1008 97)
                                (replicate 1008 Byte.x61) _ 0 1 2250
                                peer 1.0 1.0 waiting H1 H2 H3)))).
Defined.

End MoreWitnesses.
